(** * KDP analytics: extraction, merge and reconciliation pipeline

    A shallow embedding of the record extractor, the merge engine and the
    cross-dataset reconciler of the KDP analytics dashboard, with the
    properties its specification states about them.

    Modelling conventions, shared by every module below.

    - JavaScript strings are [string]s of 8-bit characters; the ASCII range
      is modelled, so [toLowerCase], [toUpperCase], [trim] and the regular
      expression classes [\d], [\s], [a-zA-Z] act on ASCII characters.
    - JavaScript numbers are exact rationals ([Qc]); [NaN] and [undefined]
      are the [None] of an [option]. Comparisons and [Math.max] are exact on
      doubles. A sum of the reconciler is the exact sum of its terms, which
      is the sum of the source when its additions do not round.
    - A property that may be absent from an object is an [option] field;
      [x || d] is written [orq x d] / [ors x d].
    - [new Date().toISOString()] is a clock reading passed as an argument.
      So is what the engine decides and the model does not compute: the
      number of nested calls its stack takes, the conversion of a string
      or an object to a number, the rounded sum of the amounts of a text.
    - A thrown exception is the [Throw] of a [result]. *)

From stdpp Require Import base numbers list strings pretty gmap.
From Stdlib Require Import QArith Qcanon Qcabs Ascii String.

Close Scope Qc_scope.
Close Scope Q_scope.
Local Open Scope string_scope.
Local Open Scope list_scope.

(** ** JavaScript values used by the sources *)

Module JS.

Inductive exn := ReferenceError | TypeError | RangeError.

Inductive result (A : Type) :=
| Ok (a : A)
| Throw (e : exn).
Arguments Ok {A} a.
Arguments Throw {A} e.

Definition bind {A B} (r : result A) (k : A → result B) : result B :=
  match r with
  | Ok a => k a
  | Throw e => Throw e
  end.

(** [xs.forEach(f)] for a callback that threads a state and may throw. *)
Fixpoint forEach {A St} (f : St → A → result St) (xs : list A) (s : St) : result St :=
  match xs with
  | [] => Ok s
  | x :: tl => bind (f s x) (forEach f tl)
  end.

(** *** Characters *)

Definition code (c : ascii) : nat := nat_of_ascii c.

Definition between (lo hi : nat) (c : ascii) : bool :=
  (lo <=? code c)%nat && (code c <=? hi)%nat.

Definition is_digit : ascii → bool := between 48 57.
Definition is_upper : ascii → bool := between 65 90.
Definition is_lower : ascii → bool := between 97 122.
Definition is_letter (c : ascii) : bool := is_upper c || is_lower c.

(** [\s] on the ASCII range: TAB, LF, VT, FF, CR and space. *)
Definition is_space (c : ascii) : bool := between 9 13 c || (code c =? 32)%nat.

Definition lower_char (c : ascii) : ascii :=
  if is_upper c then ascii_of_nat (code c + 32) else c.
Definition upper_char (c : ascii) : ascii :=
  if is_lower c then ascii_of_nat (code c - 32) else c.

(** *** Strings *)

Definition chars : string → list ascii := list_ascii_of_string.
Definition str : list ascii → string := string_of_list_ascii.

Definition toLowerCase (s : string) : string := str (map lower_char (chars s)).
Definition toUpperCase (s : string) : string := str (map upper_char (chars s)).

Fixpoint drop_space (l : list ascii) : list ascii :=
  match l with
  | c :: tl => if is_space c then drop_space tl else l
  | [] => []
  end.

Definition trim (s : string) : string :=
  str (rev (drop_space (rev (drop_space (chars s))))).

Fixpoint starts_with (p l : list ascii) : bool :=
  match p, l with
  | [], _ => true
  | a :: p', b :: l' => Ascii.eqb a b && starts_with p' l'
  | _ :: _, [] => false
  end.

Fixpoint infix_of (p l : list ascii) : bool :=
  starts_with p l ||
  match l with
  | [] => false
  | _ :: tl => infix_of p tl
  end.

(** [s.includes(p)] *)
Definition includes (s p : string) : bool := infix_of (chars p) (chars s).

(** [s.substring(0, n)] *)
Definition substring0 (n : nat) (s : string) : string := str (take n (chars s)).

(** The longest prefix whose characters satisfy [p], and the rest. *)
Fixpoint span (p : ascii → bool) (l : list ascii) : list ascii * list ascii :=
  match l with
  | c :: tl => if p c then let '(a, b) := span p tl in (c :: a, b) else ([], l)
  | [] => ([], [])
  end.

(** A string is truthy when it is not empty. *)
Definition truthy_str (s : string) : bool := negb (String.eqb s "").

(** [s || d] for an optional string property. *)
Definition ors (s : option string) (d : string) : string :=
  match s with
  | Some v => if truthy_str v then v else d
  | None => d
  end.

(** *** Numbers *)

Definition num := Qc.

Definition of_Z (z : Z) : num := Qc_of_Z z.
Definition of_nat (n : nat) : num := Qc_of_Z (Z.of_nat n).

Definition gtb (a b : num) : bool := bool_decide (b < a)%Qc.
Definition ltb (a b : num) : bool := bool_decide (a < b)%Qc.
Definition is_zero (a : num) : bool := bool_decide (a = 0%Qc).

(** [Math.max(a, b)] *)
Definition Math_max (a b : num) : num := if gtb b a then b else a.

(** [x || d] for an optional numeric property: [undefined], [NaN] and [0]
    are falsy. *)
Definition orq (x : option num) (d : num) : num :=
  match x with
  | Some v => if is_zero v then d else v
  | None => d
  end.

(** [x > 0] for an optional numeric property; [undefined > 0] is false. *)
Definition gt0 (x : option num) : bool :=
  match x with
  | Some v => gtb v 0%Qc
  | None => false
  end.

(** The approximate per-page rate, [0.004]. *)
Definition kenp_rate : num := Q2Qc (4 # 1000).

(** Decimal digits to a natural number (as [Z]). *)
Definition digit_val (c : ascii) : Z := Z.of_nat (code c - 48).

Definition digits_val (l : list ascii) : Z :=
  fold_left (λ acc c, acc * 10 + digit_val c)%Z l 0%Z.

(** [parseInt(s)] for a string that starts with a digit: the value of the
    leading run of digits. [None] stands for [NaN]. *)
Definition parseInt (s : string) : option num :=
  match fst (span is_digit (chars s)) with
  | [] => None
  | ds => Some (of_Z (digits_val ds))
  end.

(** [parseFloat(s)] for the strings the sources hand it, an unsigned
    decimal literal: digits, an optional point, digits. [None] is [NaN]. *)
Definition parseFloat (s : string) : option num :=
  let '(ip, r) := span is_digit (chars s) in
  let fp := match r with
            | c :: r' => if Ascii.eqb c "." then fst (span is_digit r') else []
            | [] => []
            end in
  match ip, fp with
  | [], [] => None
  | _, _ =>
      Some (Q2Qc (Qmake (digits_val ip * 10 ^ Z.of_nat (List.length fp) + digits_val fp)
                        (Z.to_pos (10 ^ Z.of_nat (List.length fp)))))
  end.

(** *** Insertion-ordered maps ([new Map()]) keyed by strings *)

Abbreviation jsmap V := (list (string * V)).

Section OrderedMap.
Context {V : Type}.

(** [m.get(k)]; [m.has(k)] holds when it is a [Some], the values stored
    being objects. *)
Fixpoint map_get (k : string) (m : jsmap V) : option V :=
  match m with
  | [] => None
  | (k', v) :: tl => if String.eqb k k' then Some v else map_get k tl
  end.

(** [m.set(k, v)]: an existing key keeps its position. *)
Fixpoint map_set (k : string) (v : V) (m : jsmap V) : jsmap V :=
  match m with
  | [] => [(k, v)]
  | (k', v') :: tl =>
      if String.eqb k k' then (k, v) :: tl else (k', v') :: map_set k v tl
  end.

(** [Array.from(m.values())] *)
Definition map_values (m : jsmap V) : list V := map snd m.
End OrderedMap.

End JS.
Import JS.

(** ** Candidate and canonical book records

    The metrics of a record are numbers, [None] when the property is
    missing or [NaN]: this is what the extractors of rows, widgets and
    elements set, and what the merge computes with. A record of
    [extractBooksFromObject] whose metric is a truthy value of another
    type (a string, an array) is no value of this type: [Math.max] would
    turn it into [NaN]. *)

Record book := Book {
  title : option string;
  asin : option string;
  id : option string;
  totalRoyalties : option num;
  totalSales : option num;
  kenpReads : option num;
  kenpRoyalties : option num;
  marketplace : option string;
  country : option string;
  source : option string;
  extractedAt : option string;
  lastUpdated : option string
}.

(** A property read in a boolean position. *)
Definition truthy_os (s : option string) : bool :=
  match s with Some v => truthy_str v | None => false end.

(** ** The content script of the extension ([kdp-extension/content.js]) *)

Module Content.

Definition uiKeywords : list string :=
  [ "dashboard"; "report"; "total"; "summary"; "date"; "filter"; "export"; "download";
    "view"; "details"; "more"; "less"; "expand"; "collapse"; "royalties"; "earnings";
    "sales"; "kindle"; "direct"; "publishing"; "amazon"; "select"; "unlimited"; "kenp";
    "asin"; "marketplace"; "currency"; "period"; "range"; "month"; "year"; "today";
    "yesterday"; "week"; "quarter"; "loading"; "please wait"; "no data"; "error" ].

(** The punctuation of the character class of [hasValidChars], by character
    code: hyphen, colon, full stop, comma, apostrophe, double quote,
    exclamation mark, question mark, ampersand and the two parentheses. *)
Definition title_punctuation : list nat := [45; 58; 46; 44; 39; 34; 33; 63; 38; 40; 41]%nat.

Definition valid_char (c : ascii) : bool :=
  is_letter c || is_digit c || is_space c || existsb (Nat.eqb (code c)) title_punctuation.

(** [/^C+$/.test(text)] for a character class [C] *)
Definition all_of (p : ascii → bool) (text : string) : bool :=
  negb (String.eqb text "") && forallb p (chars text).

(** [/C/.test(text)] for a character class [C] *)
Definition some_of (p : ascii → bool) (text : string) : bool :=
  existsb p (chars text).

Definition isLikelyBookTitle (text : string) : bool :=
  if negb (truthy_str text) || (String.length text <? 3)%nat || (200 <? String.length text)%nat
  then false
  else
    let lowerText := toLowerCase text in
    let hasUIKeyword := existsb (λ keyword, includes lowerText keyword) uiKeywords in
    if hasUIKeyword then false
    else
      let hasLetters := some_of is_letter text in
      let notAllCaps := negb (String.eqb text (toUpperCase text))
                        || (String.length text <? 20)%nat in
      let notOnlyNumbers := negb (all_of is_digit text) in
      let notOnlySymbols :=
        negb (all_of (λ c, negb (is_letter c || is_digit c || is_space c)) text) in
      let hasValidChars := all_of valid_char text in
      hasLetters && notAllCaps && notOnlyNumbers && notOnlySymbols && hasValidChars.

Definition countryMap : list (string * string) :=
  [ (".com", "US"); (".co.uk", "UK"); (".de", "DE"); (".fr", "FR");
    (".it", "IT"); (".es", "ES"); (".co.jp", "JP"); (".ca", "CA");
    (".com.au", "AU"); (".com.br", "BR"); (".in", "IN"); (".com.mx", "MX") ].

Definition extractCountryFromMarketplace (marketplace : string) : string :=
  match find (λ '(domain, _), includes marketplace domain) countryMap with
  | Some (_, country) => country
  | None => "US"
  end.

(** *** Regular expressions of the row extractor *)

(** One match of [/\$[\d,]+\.?\d*/] at the head of [l]. *)
Definition money_at (l : list ascii) : option (list ascii) :=
  match l with
  | c :: r =>
      if Ascii.eqb c "$" then
        match span (λ d, is_digit d || Ascii.eqb d ",") r with
        | ([], _) => None
        | (a, r1) =>
            match r1 with
            | p :: r2 =>
                if Ascii.eqb p "." then Some (c :: a ++ p :: fst (span is_digit r2))
                else Some (c :: a)
            | [] => Some (c :: a)
            end
        end
      else None
  | [] => None
  end.

(** [text.match(/\$[\d,]+\.?\d*/g)]: the matches from left to right, each
    search resuming after the previous match; [skip] counts the characters
    of the current match still to be passed over. *)
Fixpoint money_scan (l : list ascii) (skip : nat) : list string :=
  match l with
  | [] => []
  | _ :: tl =>
      match skip with
      | S k => money_scan tl k
      | O =>
          match money_at l with
          | Some m => str m :: money_scan tl (List.length m - 1)
          | None => money_scan tl 0
          end
      end
  end.

Definition money_matches (text : string) : list string := money_scan (chars text) 0.

(** [amount.replace(/[$,]/g, '')] *)
Definition strip_money (amount : string) : string :=
  str (filter (λ c, ¬ (c = "$"%char ∨ c = ","%char)) (chars amount)).

(** [/^\d+$/] *)
Definition all_digits (text : string) : bool := all_of is_digit text.

(** [/^\d{3,}$/] *)
Definition three_digits (text : string) : bool :=
  all_digits text && (3 <=? String.length text)%nat.

(** [text.match(/\d+/)]: the first maximal run of digits. *)
Fixpoint first_digits (l : list ascii) : option string :=
  match l with
  | [] => None
  | c :: tl => if is_digit c then Some (str (fst (span is_digit l))) else first_digits tl
  end.

(** [text.match(/[A-Z0-9]{10}/)]: the first ten consecutive characters of
    the class. *)
Fixpoint first_asin (l : list ascii) : option string :=
  match l with
  | [] => None
  | _ :: tl =>
      let w := take 10 l in
      if (List.length w =? 10)%nat && forallb (λ c, is_upper c || is_digit c) w
      then Some (str w) else first_asin tl
  end.

(** *** [extractBookDataFromRow] *)

(** The [let] variables of the function. *)
Record row_vars := RowVars {
  r_title : string;
  r_revenue : num;
  r_sales : num;
  r_kenpReads : num;
  r_kenpRoyalties : num;
  r_asin : string;
  r_marketplace : string
}.

Definition row_init : row_vars := RowVars "" 0%Qc 0%Qc 0%Qc 0%Qc "" "".

(** [parseInt(text) > lo] and its companions; a [NaN] compares false. *)
Definition int_gt (text : string) (lo : num) : bool :=
  match parseInt text with Some n => gtb n lo | None => false end.
Definition int_lt (text : string) (hi : num) : bool :=
  match parseInt text with Some n => ltb n hi | None => false end.

(** The body of [cells.forEach((cell, index) => ...)]; [cell] is the
    [textContent] of the cell. In the KENP block the binding is called
    [kenpMatch] and the read is of [kempMatch], a name bound nowhere: reading
    it throws a [ReferenceError]. *)
Definition row_cell (v : row_vars) (cell : string) : result row_vars :=
  let text := trim cell in
  let v1 :=
    if (10 <? String.length text)%nat
       && negb (includes text "$")
       && negb (all_digits text)
       && negb (includes text "KENP")
       && isLikelyBookTitle text
    then RowVars text (r_revenue v) (r_sales v) (r_kenpReads v) (r_kenpRoyalties v)
                 (r_asin v) (r_marketplace v)
    else v in
  let revenue :=
    fold_left (λ revenue amount,
                 match parseFloat (strip_money amount) with
                 | Some value => if gtb value revenue then value else revenue
                 | None => revenue
                 end)
              (money_matches text) (r_revenue v1) in
  let sales :=
    if all_digits text && int_gt text 0%Qc && int_lt text (of_Z 10000) then
      match parseInt text with
      | Some n => if gtb n (r_sales v1) then n else r_sales v1
      | None => r_sales v1
      end
    else r_sales v1 in
  bind
    (if includes text "KENP" || (three_digits text && int_gt text (of_Z 100)) then
       match first_digits (chars text) with
       | Some _ => Throw ReferenceError
       | None => Ok (r_kenpReads v1)
       end
     else Ok (r_kenpReads v1))
    (λ kenpReads,
       let asin :=
         match first_asin (chars text) with
         | Some a => if negb (truthy_str (r_asin v1)) then a else r_asin v1
         | None => r_asin v1
         end in
       let marketplace :=
         if includes text ".com" || includes text ".co.uk" || includes text ".de"
         then text else r_marketplace v1 in
       Ok (RowVars (r_title v1) revenue sales kenpReads (r_kenpRoyalties v1)
                   asin marketplace)).

Definition extractBookDataFromRow (cells : list string) (source now : string)
  : result (option book) :=
  bind (forEach row_cell cells row_init) (λ v,
    let kenpRoyalties :=
      if gtb (r_kenpReads v) 0%Qc && is_zero (r_kenpRoyalties v)
      then (r_kenpReads v * kenp_rate)%Qc else r_kenpRoyalties v in
    if truthy_str (r_title v)
       && (gtb (r_revenue v) 0%Qc || gtb (r_sales v) 0%Qc || gtb (r_kenpReads v) 0%Qc)
    then
      Ok (Some {| title := Some (r_title v);
                  asin := Some (r_asin v);
                  id := None;
                  totalRoyalties := Some (r_revenue v);
                  totalSales := Some (r_sales v);
                  kenpReads := Some (r_kenpReads v);
                  kenpRoyalties := Some kenpRoyalties;
                  marketplace := Some (ors (Some (r_marketplace v)) "amazon.com");
                  country := Some (extractCountryFromMarketplace (r_marketplace v));
                  source := Some source;
                  extractedAt := Some now;
                  lastUpdated := None |})
    else Ok None).

(** [rows.forEach((row, rowIndex) => ...)] of [extractFromTables], for the
    table of index [tableIndex] given as the rows' cell texts: a row of fewer
    than two cells is skipped, and nothing here catches what
    [extractBookDataFromRow] throws. *)
Fixpoint extractFromRows (tableIndex rowIndex : nat) (rows : list (list string))
  (now : string) (books : list book) : result (list book) :=
  match rows with
  | [] => Ok books
  | cells :: tl =>
      bind
        (if (2 <=? List.length cells)%nat then
           bind (extractBookDataFromRow cells
                   ("table_" +:+ pretty tableIndex +:+ "_row_" +:+ pretty rowIndex) now)
                (λ bookData,
                   match bookData with
                   | Some b => if truthy_os (title b) then Ok (books ++ [b]) else Ok books
                   | None => Ok books
                   end)
         else Ok books)
        (extractFromRows tableIndex (S rowIndex) tl now)
  end.

(** *** [extractBooksFromObject]

    The nested value is a graph of objects and arrays in a store, so that two
    properties can hold the same object and an object can hold itself. *)

Abbreviation loc := nat.

Inductive value :=
| VUndefined
| VNull
| VBool (b : bool)
| VNumber (n : num)
| VString (s : string)
| VObject (l : loc).

(** An object lists its own enumerable properties in enumeration order. *)
Inductive object :=
| Obj (props : list (string * value))
| Arr (items : list value).

Abbreviation heap := (gmap loc object).

Definition truthy (v : value) : bool :=
  match v with
  | VUndefined | VNull => false
  | VBool b => b
  | VNumber n => negb (is_zero n)
  | VString s => truthy_str s
  | VObject _ => true
  end.

(** [a || b] *)
Definition vor (a b : value) : value := if truthy a then a else b.

(** [value.key] on the own properties of a plain object. *)
Fixpoint prop (key : string) (props : list (string * value)) : value :=
  match props with
  | [] => VUndefined
  | (k, v) :: tl => if String.eqb key k then v else prop key tl
  end.

(** A record pushed by the traversal; the metrics keep the values found. *)
Record js_book := JsBook {
  jb_title : string;
  jb_totalRoyalties : value;
  jb_totalSales : value;
  jb_kenpReads : value;
  jb_asin : value;
  jb_source : string;
  jb_extractedAt : string
}.

(** [text.length < 3 || text.length > 200] for a [length] that is a number. *)
Definition length_rejects (n : num) : bool := ltb n (of_Z 3) || gtb n (of_Z 200).

(** The conversions of the engine that the model takes as an argument:
    [v < 3 || v > 200] for a [length] [v] that is a string or an object.
    The engine first converts [v] to a number, a string by its numeric
    value rounded to a double, an array through [join]; the result is the
    value of the test, or what the conversion throws. *)
Abbreviation coercion := (heap → value → result bool).

(** [isLikelyBookTitle(title)] for a truthy [title] of any type. A string
    goes through the classifier. Any other value has no [toLowerCase], and
    calling it throws a [TypeError] unless the length test has returned
    [false] before: an array has its number of items for [length], a plain
    object its own [length] property. [null], [false] and [true] count as
    0, 0 and 1, a missing [length] as [NaN]; a [length] that is a string or
    an object is converted by the engine. *)
Definition titleCheck (js : coercion) (h : heap) (title : value) : result bool :=
  match title with
  | VString s => Ok (isLikelyBookTitle s)
  | VUndefined | VNull => Ok false
  | VBool _ | VNumber _ => Throw TypeError
  | VObject l =>
      match h !! l with
      | Some (Arr items) =>
          if length_rejects (of_nat (List.length items)) then Ok false else Throw TypeError
      | Some (Obj props) =>
          match prop "length" props with
          | VNumber n => if length_rejects n then Ok false else Throw TypeError
          | VNull | VBool _ => Ok false
          | VUndefined => Throw TypeError
          | (VString _ | VObject _) as v =>
              bind (js h v) (λ rejects, if rejects then Ok false else Throw TypeError)
          end
      | None => Throw TypeError
      end
  end.

(** A loop over [xs] with their indices, from [i] on. *)
Fixpoint forEachIndexed {A St} (f : nat → A → St → result St) (i : nat) (xs : list A)
  (s : St) : result St :=
  match xs with
  | [] => Ok s
  | x :: tl => bind (f i x s) (forEachIndexed f (S i) tl)
  end.

(** The own enumerable keys of [o] with their values: [for (const key in o)]
    filtered by [hasOwnProperty]. *)
Definition own_entries (o : object) : list (string * value) :=
  match o with
  | Obj props => props
  | Arr items => imap (λ i v, (pretty i, v)) items
  end.

(** [value.title || value.name || value.productName] *)
Definition name_like (props : list (string * value)) : value :=
  vor (vor (prop "title" props) (prop "name" props)) (prop "productName" props).

(** [path ? `${path}.${key}` : key] *)
Definition child_path (path key : string) : string :=
  if truthy_str path then path +:+ "." +:+ key else key.

(** [`${currentPath}[${index}]`] *)
Definition item_path (currentPath : string) (index : nat) : string :=
  currentPath +:+ "[" +:+ pretty index +:+ "]".

(** The object of [books.push({...})], for a plain object with the
    properties [props] and the title [s]. *)
Definition pushed_book (props : list (string * value)) (s currentPath now : string)
  : js_book :=
  {| jb_title := s;
     jb_totalRoyalties :=
       vor (vor (vor (prop "revenue" props) (prop "royalties" props))
                (prop "earnings" props)) (VNumber 0%Qc);
     jb_totalSales :=
       vor (vor (vor (prop "sales" props) (prop "units" props))
                (prop "orders" props)) (VNumber 0%Qc);
     jb_kenpReads :=
       vor (vor (vor (prop "kenp" props) (prop "kenpReads" props))
                (prop "reads" props)) (VNumber 0%Qc);
     jb_asin := vor (vor (prop "asin" props) (prop "id" props)) (VString "");
     jb_source := "js_object_" +:+ currentPath;
     jb_extractedAt := now |}.

(** The test and the [books.push] on a plain object [value]. *)
Definition visit_object (js : coercion) (h : heap) (props : list (string * value))
  (currentPath now : string) (books : list js_book) : result (list js_book) :=
  let title := name_like props in
  if truthy title then
    bind (titleCheck js h title) (λ ok,
      match ok, title with
      | true, VString s => Ok (books ++ [pushed_book props s currentPath now])
      | _, _ => Ok books
      end)
  else Ok books.

(** [o] has an own property named [hasOwnProperty]. The values of the store
    are data, so [o.hasOwnProperty(key)] then calls what is no function and
    throws a [TypeError]. *)
Definition shadows_hasOwnProperty (o : object) : bool :=
  match o with
  | Obj props => existsb (λ '(k, _), String.eqb k "hasOwnProperty") props
  | Arr _ => false
  end.

(** The body of [traverse(o, path)], with [self] for the recursive call.
    The list of books found so far is threaded through. There is no record
    of the objects already visited. *)
Definition traverse_body (self : value → string → list js_book → result (list js_book))
  (js : coercion) (h : heap) (now : string) (o : value) (path : string)
  (books : list js_book) : result (list js_book) :=
  match o with
  | VObject l =>
      match h !! l with
      | Some ob =>
          if shadows_hasOwnProperty ob then Throw TypeError else
          forEachIndexed
            (λ _ '(key, value) books,
               let currentPath := child_path path key in
               match value with
               | VObject l' =>
                   match h !! l' with
                   | Some (Arr items) =>
                       forEachIndexed
                         (λ index item books,
                            match item with
                            | VObject _ => self item (item_path currentPath index) books
                            | _ => Ok books
                            end)
                         0 items books
                   | Some (Obj props) =>
                       bind (visit_object js h props currentPath now books)
                            (self value currentPath)
                   | None => Ok books
                   end
               | _ => Ok books
               end)
            0 (own_entries ob) books
      | None => Ok books
      end
  | _ => Ok books
  end.

(** [traverse]. The recursion of the source is bounded by the stack of the
    engine alone: [stack] is the number of nested calls of [traverse] that
    the stack still takes, the callbacks of [forEach] counted with the call
    they make. A call that the stack does not take throws a [RangeError],
    and nothing in [extractBooksFromObject] catches it. *)
Fixpoint traverse (js : coercion) (stack : nat) (h : heap) (now : string) (o : value)
  (path : string) (books : list js_book) : result (list js_book) :=
  match stack with
  | O => Throw RangeError
  | S n => traverse_body (traverse js n h now) js h now o path books
  end.

Definition extractBooksFromObject (js : coercion) (stack : nat) (h : heap) (now : string)
  (obj : value) : result (list js_book) :=
  traverse js stack h now obj "" [].

(** *** [processAndDeduplicateBooks] *)

(** The dedup key of this script: the title alone. *)
Definition dedupKey (b : book) : string :=
  trim (toLowerCase (ors (title b) "")).

(** The object stored when the key is already in the map. [Math.max] is
    taken of numbers, the metrics of a [book]. *)
Definition merged (existing b : book) : book :=
  {| title := title existing;
     asin := Some (ors (asin existing) (ors (asin b) ""));
     id := id existing;
     totalRoyalties :=
       Some (Math_max (orq (totalRoyalties existing) 0%Qc) (orq (totalRoyalties b) 0%Qc));
     totalSales :=
       Some (Math_max (orq (totalSales existing) 0%Qc) (orq (totalSales b) 0%Qc));
     kenpReads :=
       Some (Math_max (orq (kenpReads existing) 0%Qc) (orq (kenpReads b) 0%Qc));
     kenpRoyalties :=
       Some (Math_max (orq (kenpRoyalties existing) 0%Qc) (orq (kenpRoyalties b) 0%Qc));
     marketplace := Some (ors (marketplace existing) (ors (marketplace b) "amazon.com"));
     country := Some (ors (country existing) (ors (country b) "US"));
     source := source existing;
     extractedAt := extractedAt existing;
     lastUpdated := lastUpdated existing |}.

(** The object stored for a new key. [book.kenpReads * 0.004] is [NaN] when
    the property is missing. *)
Definition added (b : book) (now : string) : book :=
  {| title := title b;
     asin := Some (ors (asin b) "");
     id := None;
     totalRoyalties := Some (orq (totalRoyalties b) 0%Qc);
     totalSales := Some (orq (totalSales b) 0%Qc);
     kenpReads := Some (orq (kenpReads b) 0%Qc);
     kenpRoyalties :=
       Some (orq (kenpRoyalties b)
                 (orq (option_map (λ r, (r * kenp_rate)%Qc) (kenpReads b)) 0%Qc));
     marketplace := Some (ors (marketplace b) "amazon.com");
     country := Some (ors (country b) "US");
     source := Some (ors (source b) "unknown");
     extractedAt := Some (ors (extractedAt b) now);
     lastUpdated := None |}.

(** The body of [books.forEach(book => ...)]. *)
Definition dedup_step (now : string) (bookMap : jsmap book) (b : book) : jsmap book :=
  if negb (truthy_os (title b)) then bookMap
  else
    let key := dedupKey b in
    match map_get key bookMap with
    | Some existing => map_set key (merged existing b) bookMap
    | None => map_set key (added b now) bookMap
    end.

Definition bookMap_of (now : string) (books : list book) : jsmap book :=
  fold_left (dedup_step now) books [].

(** The filter on the way out. *)
Definition keeps (b : book) : bool :=
  (2 <? String.length (ors (title b) ""))%nat
  && (gt0 (totalRoyalties b) || gt0 (totalSales b) || gt0 (kenpReads b)).

Definition processAndDeduplicateBooks (now : string) (books : list book) : list book :=
  List.filter keeps (map_values (bookMap_of now books)).

(** *** The widget and element extractors *)

(** The addition of the engine: the sum of two doubles, rounded. It is an
    argument of the functions that add amounts of a text, so that what is
    proved of them does not depend on the rounding. *)
Abbreviation addition := (num → num → num).

(** [extractMoneyAmount]: the sum, from left to right, of the dollar
    amounts of [text]; an amount that parses to [NaN] adds 0. *)
Definition extractMoneyAmount (add : addition) (text : string) : num :=
  fold_left (λ total m,
               add total match parseFloat (strip_money m) with
                         | Some amount => amount
                         | None => 0%Qc
                         end)
            (money_matches text) 0%Qc.

(** The dot of a regular expression matches no line terminator. *)
Definition is_line_terminator (c : ascii) : bool :=
  (code c =? 10)%nat || (code c =? 13)%nat.

(** [.*?(\d+)] at the head of [l]: the first run of digits that no line
    terminator separates from the head. *)
Fixpoint lazy_digits (l : list ascii) : option (list ascii) :=
  match l with
  | [] => None
  | c :: tl =>
      if is_digit c then Some (fst (span is_digit l))
      else if is_line_terminator c then None
      else lazy_digits tl
  end.

(** [p] heads [l], case apart. *)
Fixpoint starts_with_ci (p l : list ascii) : bool :=
  match p, l with
  | [], _ => true
  | a :: p', b :: l' => Ascii.eqb (lower_char a) (lower_char b) && starts_with_ci p' l'
  | _ :: _, [] => false
  end.

(** The group of [text.match(/KENP.*?(\d+)/i)]: the leftmost occurrence of
    KENP, in any case, that digits follow on its line. *)
Fixpoint kenp_digits (l : list ascii) : option string :=
  match l with
  | [] => None
  | _ :: tl =>
      if starts_with_ci (chars "kenp") l then
        match lazy_digits (drop 4 l) with
        | Some ds => Some (str ds)
        | None => kenp_digits tl
        end
      else kenp_digits tl
  end.

(** The loop over the headings of a widget: the title kept is replaced by
    a heading that passes the classifier and is strictly longer. *)
Definition widget_title (headings : list string) : string :=
  fold_left (λ title heading,
               let headingText := trim heading in
               if isLikelyBookTitle headingText
                  && (String.length title <? String.length headingText)%nat
               then headingText else title)
            headings "".

(** [extractBookDataFromWidget(widget, source)], for a widget given by its
    [textContent] and the [textContent] of its heading elements in document
    order. *)
Definition extractBookDataFromWidget (add : addition) (text : string)
  (headings : list string)
  (source now : string) : option book :=
  let title := widget_title headings in
  let revenue := extractMoneyAmount add text in
  let kenpReads :=
    match kenp_digits (chars text) with
    | Some ds => match parseInt ds with Some n => n | None => 0%Qc end
    | None => 0%Qc
    end in
  if truthy_str title && (gtb revenue 0%Qc || gtb kenpReads 0%Qc) then
    Some {| title := Some title; asin := None; id := None;
            totalRoyalties := Some revenue; totalSales := None;
            kenpReads := Some kenpReads;
            kenpRoyalties := Some (kenpReads * kenp_rate)%Qc;
            marketplace := None; country := None; source := Some source;
            extractedAt := Some now; lastUpdated := None |}
  else None.

(** [extractBooksFromElement(element)], for an element given by its
    [textContent] and the [textContent] of its title elements. *)
Definition extractBooksFromElement (add : addition) (text : string)
  (titles : list string) (now : string) : list book :=
  flat_map (λ titleEl,
              let title := trim titleEl in
              if isLikelyBookTitle title && gtb (extractMoneyAmount add text) 0%Qc then
                [ {| title := Some title; asin := None; id := None;
                     totalRoyalties := Some (extractMoneyAmount add text);
                     totalSales := None; kenpReads := None; kenpRoyalties := None;
                     marketplace := None; country := None;
                     source := Some "element_extraction";
                     extractedAt := Some now; lastUpdated := None |} ]
              else [])
           titles.

End Content.

(** ** The advanced content script (KDP Analytics Pro) *)

Module Advanced.

Definition uiKeywords : list string :=
  [ "dashboard"; "report"; "total"; "summary"; "date"; "filter"; "export";
    "view"; "details"; "royalties"; "earnings"; "sales"; "kindle"; "asin" ].

Definition isLikelyBookTitle (text : string) : bool :=
  if negb (truthy_str text) || (String.length text <? 3)%nat || (300 <? String.length text)%nat
  then false
  else
    let lowerText := toLowerCase text in
    if existsb (λ keyword, String.eqb lowerText keyword) uiKeywords then false
    else
      let hasLetters := Content.some_of is_letter text in
      let notOnlyNumbers := negb (Content.all_of is_digit text) in
      let hasValidChars := Content.all_of Content.valid_char text in
      hasLetters && notOnlyNumbers && hasValidChars.

Definition isValidBookData (b : book) : bool :=
  truthy_os (title b)
  && (2 <? String.length (ors (title b) ""))%nat
  && (gt0 (totalRoyalties b) || gt0 (totalSales b) || gt0 (kenpReads b)).

(** *** The sources of fallback identifiers

    [crypto.getRandomValues] may be missing; when present it fills an array
    with the next bytes of the random stream. [Math.random().toString(36)]
    and [Date.now()] are read from the environment as well. [drawn] counts
    what has been consumed. *)
Record environment := Environment {
  hasGetRandomValues : bool;
  randomByte : nat → nat;
  mathRandom36 : nat → string;
  dateNow : Z
}.

Definition hex_digit (n : nat) : ascii :=
  if (n <? 10)%nat then ascii_of_nat (48 + n) else ascii_of_nat (87 + n).

(** [b.toString(16).padStart(2, '0')] for a byte. *)
Definition hex_byte (b : nat) : string :=
  let b := (b mod 256)%nat in
  str [hex_digit (b / 16); hex_digit (b mod 16)].

(** [Array.from(crypto.getRandomValues(new Uint8Array(8)), ...).join('')] *)
Definition randomId (env : environment) (drawn : nat) : string :=
  String.concat "" (map (λ i, hex_byte (randomByte env (drawn + i))) (seq 0 8)).

(** [s.substr(2, 9)] *)
Definition substr_2_9 (s : string) : string := str (take 9 (drop 2 (chars s))).

Definition fallbackId (env : environment) (drawn : nat) : string * nat :=
  if hasGetRandomValues env then (randomId env drawn, (drawn + 8)%nat)
  else ("book_" +:+ pretty (dateNow env) +:+ "_" +:+ substr_2_9 (mathRandom36 env drawn),
        S drawn).

(** [a || b] for two optional string properties. *)
Definition oro (a b : option string) : option string :=
  if truthy_os a then a else b.

(** [book.kenpRoyalties === 0] *)
Definition is_number_zero (x : option num) : bool :=
  match x with Some v => is_zero v | None => false end.

Definition enhanceBookData (env : environment) (drawn : nat) (b : book) : book * nat :=
  let kenpRoyalties :=
    if gt0 (kenpReads b) && is_number_zero (kenpRoyalties b)
    then option_map (λ r, (r * kenp_rate)%Qc) (kenpReads b)
    else kenpRoyalties b in
  let country := if negb (truthy_os (country b)) then Some "US" else country b in
  let '(id', drawn') :=
    if negb (truthy_os (id b)) && negb (truthy_os (asin b))
    then let '(i, d) := fallbackId env drawn in (Some i, d)
    else (id b, drawn) in
  ({| title := title b; asin := asin b; id := id';
      totalRoyalties := totalRoyalties b; totalSales := totalSales b;
      kenpReads := kenpReads b; kenpRoyalties := kenpRoyalties;
      marketplace := marketplace b; country := country; source := source b;
      extractedAt := extractedAt b; lastUpdated := lastUpdated b |}, drawn').

Definition mergeBookData (now : string) (existing newBook : book) : book :=
  {| title := title existing;
     asin := oro (asin existing) (asin newBook);
     id := id existing;
     totalRoyalties :=
       Some (Math_max (orq (totalRoyalties existing) 0%Qc) (orq (totalRoyalties newBook) 0%Qc));
     totalSales :=
       Some (Math_max (orq (totalSales existing) 0%Qc) (orq (totalSales newBook) 0%Qc));
     kenpReads :=
       Some (Math_max (orq (kenpReads existing) 0%Qc) (orq (kenpReads newBook) 0%Qc));
     kenpRoyalties :=
       Some (Math_max (orq (kenpRoyalties existing) 0%Qc) (orq (kenpRoyalties newBook) 0%Qc));
     marketplace := marketplace existing;
     country := oro (country existing) (country newBook);
     source := source existing;
     extractedAt := extractedAt existing;
     lastUpdated := Some now |}.

(** [book.asin || book.title.toLowerCase().trim()] *)
Definition dedupKey (b : book) : string :=
  ors (asin b) (trim (toLowerCase (ors (title b) ""))).

(** The body of [books.forEach(book => ...)]; the state is the map and the
    count of random draws. *)
Definition dedup_step (env : environment) (now : string)
  (st : jsmap book * nat) (b : book) : jsmap book * nat :=
  let '(bookMap, drawn) := st in
  if negb (isValidBookData b) then st
  else
    let key := dedupKey b in
    match map_get key bookMap with
    | Some existing => (map_set key (mergeBookData now existing b) bookMap, drawn)
    | None =>
        let '(e, drawn') := enhanceBookData env drawn b in
        (map_set key e bookMap, drawn')
    end.

Definition bookMap_of (env : environment) (now : string) (books : list book)
  : jsmap book * nat :=
  fold_left (dedup_step env now) books ([], 0%nat).

Definition processAndDeduplicateBooks (env : environment) (now : string)
  (books : list book) : list book :=
  map_values (fst (bookMap_of env now books)).

(** *** Country codes and summaries *)

Definition countryMap : list (string * string) :=
  [ ("amazon.com", "US"); ("amazon.co.uk", "UK"); ("amazon.de", "DE");
    ("amazon.fr", "FR"); ("amazon.it", "IT"); ("amazon.es", "ES");
    ("amazon.ca", "CA"); ("amazon.com.au", "AU") ].

Definition extractCountryCode (text : string) : string :=
  match find (λ '(domain, _), includes text domain) countryMap with
  | Some (_, country) => country
  | None => "US"
  end.

(** [books.sort((a, b) => (b.totalRoyalties || 0) - (a.totalRoyalties || 0))]:
    the stable sort by falling royalties. A book goes in front of the first
    book that does not have more royalties than it. *)
Fixpoint sort_insert (b : book) (sorted : list book) : list book :=
  match sorted with
  | [] => [b]
  | c :: tl =>
      if gtb (orq (totalRoyalties c) 0%Qc) (orq (totalRoyalties b) 0%Qc)
      then c :: sort_insert b tl
      else b :: sorted
  end.

Definition sort_by_royalties (books : list book) : list book :=
  foldr sort_insert [] books.

Record book_summary := BookSummary {
  totalBooks : nat;
  totalRevenue : num;
  summarySales : num;
  totalReads : num;
  topBook : option book
}.

(** [generateSummary(books)]; [summarySales] is its [totalSales]. *)
Definition generateSummary (books : list book) : book_summary :=
  {| totalBooks := List.length books;
     totalRevenue := fold_left (λ sum b, (sum + orq (totalRoyalties b) 0)%Qc) books 0%Qc;
     summarySales := fold_left (λ sum b, (sum + orq (totalSales b) 0)%Qc) books 0%Qc;
     totalReads := fold_left (λ sum b, (sum + orq (kenpReads b) 0)%Qc) books 0%Qc;
     topBook := head (sort_by_royalties books) |}.

(** *** The columns of a table *)

(** An entry of [extractTableHeaders]: the text of a header cell and its
    position in the header row. *)
Record header := Header {
  h_text : string;
  h_index : nat
}.

Inductive cell_type := TTitle | TAsin | TRevenue | TSales | TKenp | TCountry | TUnknown.

(** The [map] of [createHeaderMap]: for each type the positions pushed. *)
Record header_map := HeaderMap {
  hm_title : list nat;
  hm_asin : list nat;
  hm_revenue : list nat;
  hm_sales : list nat;
  hm_kenp : list nat;
  hm_country : list nat
}.

(** The body of [headers.forEach(header => ...)]. *)
Definition header_step (map : header_map) (h : header) : header_map :=
  let text := toLowerCase (h_text h) in
  if includes text "title" || includes text "book" || includes text "name" then
    {| hm_title := hm_title map ++ [h_index h]; hm_asin := hm_asin map;
       hm_revenue := hm_revenue map; hm_sales := hm_sales map;
       hm_kenp := hm_kenp map; hm_country := hm_country map |}
  else if includes text "asin" || includes text "id" then
    {| hm_title := hm_title map; hm_asin := hm_asin map ++ [h_index h];
       hm_revenue := hm_revenue map; hm_sales := hm_sales map;
       hm_kenp := hm_kenp map; hm_country := hm_country map |}
  else if includes text "royalt" || includes text "revenue" || includes text "earning" then
    {| hm_title := hm_title map; hm_asin := hm_asin map;
       hm_revenue := hm_revenue map ++ [h_index h]; hm_sales := hm_sales map;
       hm_kenp := hm_kenp map; hm_country := hm_country map |}
  else if includes text "sales" || includes text "units" || includes text "sold" then
    {| hm_title := hm_title map; hm_asin := hm_asin map;
       hm_revenue := hm_revenue map; hm_sales := hm_sales map ++ [h_index h];
       hm_kenp := hm_kenp map; hm_country := hm_country map |}
  else if includes text "kenp" || includes text "read" then
    {| hm_title := hm_title map; hm_asin := hm_asin map;
       hm_revenue := hm_revenue map; hm_sales := hm_sales map;
       hm_kenp := hm_kenp map ++ [h_index h]; hm_country := hm_country map |}
  else if includes text "country" || includes text "market" then
    {| hm_title := hm_title map; hm_asin := hm_asin map;
       hm_revenue := hm_revenue map; hm_sales := hm_sales map;
       hm_kenp := hm_kenp map; hm_country := hm_country map ++ [h_index h] |}
  else map.

Definition createHeaderMap (headers : list header) : header_map :=
  fold_left header_step headers
    {| hm_title := []; hm_asin := []; hm_revenue := []; hm_sales := [];
       hm_kenp := []; hm_country := [] |}.

(** [Object.entries(headerMap)] *)
Definition header_entries (map : header_map) : list (cell_type * list nat) :=
  [ (TTitle, hm_title map); (TAsin, hm_asin map); (TRevenue, hm_revenue map);
    (TSales, hm_sales map); (TKenp, hm_kenp map); (TCountry, hm_country map) ].

(** The first loop of [identifyCellType(text, index, headerMap)]: the type
    of the first entry whose positions include [index]; [None] when the
    function goes on to the tests on the text of the cell. *)
Definition mapped_type (index : nat) (map : header_map) : option cell_type :=
  match find (λ '(_, indices), bool_decide (index ∈ indices)) (header_entries map) with
  | Some (type, _) => Some type
  | None => None
  end.

(** The end of [performKDPExtraction], from the candidates the four
    methods have pushed: they are deduplicated, the result is stored in
    [extractedData.books] and handed to [generateSummary]. [books.sort]
    sorts the array it is called on, and that array is the one stored, so
    the books of the result are in the order of the sort. *)
Record extracted_data := ExtractedData {
  books : list book;
  summary : book_summary
}.

Definition performKDPExtraction (env : environment) (now : string)
  (candidates : list book) : extracted_data :=
  let processedBooks := processAndDeduplicateBooks env now candidates in
  {| books := sort_by_royalties processedBooks;
     summary := generateSummary processedBooks |}.

End Advanced.

(** ** The storage merge of the background worker ([background.js]) *)

Module Background.

(** [book.asin || book.id || book.title?.toLowerCase()]; [None] is a falsy
    key. *)
Definition storageKey (b : book) : option string :=
  let k := ors (asin b) (ors (id b) (toLowerCase (ors (title b) ""))) in
  if truthy_str k then Some k else None.

(** A field of [{...existing, ...book}]. *)
Definition spread {A} (existing b : option A) : option A :=
  match b with Some v => Some v | None => existing end.

Definition merged (now : string) (existing b : book) : book :=
  {| title := spread (title existing) (title b);
     asin := spread (asin existing) (asin b);
     id := spread (id existing) (id b);
     totalRoyalties :=
       Some (Math_max (orq (totalRoyalties existing) 0%Qc) (orq (totalRoyalties b) 0%Qc));
     totalSales :=
       Some (Math_max (orq (totalSales existing) 0%Qc) (orq (totalSales b) 0%Qc));
     kenpReads :=
       Some (Math_max (orq (kenpReads existing) 0%Qc) (orq (kenpReads b) 0%Qc));
     kenpRoyalties := spread (kenpRoyalties existing) (kenpRoyalties b);
     marketplace := spread (marketplace existing) (marketplace b);
     country := spread (country existing) (country b);
     source := spread (source existing) (source b);
     extractedAt := spread (extractedAt existing) (extractedAt b);
     lastUpdated := Some now |}.

Definition stamped (now : string) (b : book) : book :=
  {| title := title b; asin := asin b; id := id b;
     totalRoyalties := totalRoyalties b; totalSales := totalSales b;
     kenpReads := kenpReads b; kenpRoyalties := kenpRoyalties b;
     marketplace := marketplace b; country := country b; source := source b;
     extractedAt := extractedAt b; lastUpdated := Some now |}.

Definition load_step (bookMap : jsmap book) (b : book) : jsmap book :=
  match storageKey b with
  | Some key => map_set key b bookMap
  | None => bookMap
  end.

Definition merge_step (now : string) (bookMap : jsmap book) (b : book) : jsmap book :=
  match storageKey b with
  | Some key =>
      match map_get key bookMap with
      | Some existing => map_set key (merged now existing b) bookMap
      | None => map_set key (stamped now b) bookMap
      end
  | None => bookMap
  end.

Definition mergeBookData (now : string) (existing newBooks : list book) : list book :=
  map_values (fold_left (merge_step now) newBooks (fold_left load_step existing [])).

End Background.

(** ** The reconciler of the dashboard server ([dashboard_server.js]) *)

Module Dashboard.

Record sale := Sale {
  title : option string;
  date : option string;
  asin : option string;
  marketplace : option string;
  unitsSold : option num;
  royalty : option num;
  kenpReads : option num
}.

Record campaign := Campaign {
  campaignName : option string;
  spend : option num;
  sales : option num;
  acos : option num
}.

(** A stored sync entry; [payload] is [None] when [sync.data] or the list
    inside it is missing. *)
Record sync (A : Type) := Sync {
  payload : option (list A);
  timestamp : string;
  syncId : string
}.
Arguments Sync {A}.
Arguments payload {A}.
Arguments timestamp {A}.
Arguments syncId {A}.

(** [{...item, syncTimestamp, syncId}] *)
Record stamped (A : Type) := Stamped {
  item : A;
  syncTimestamp : string;
  stampedId : string
}.
Arguments Stamped {A}.
Arguments item {A}.
Arguments syncTimestamp {A}.
Arguments stampedId {A}.

Record combined := Combined {
  c_date : option string;
  c_title : option string;
  c_asin : option string;
  c_marketplace : option string;
  c_unitsSold : num;
  c_royalty : num;
  c_kenpRead : num;
  c_adSpend : num;
  c_adSales : num;
  c_acos : num;
  c_netProfit : num;
  c_currency : string;
  c_syncTimestamp : string
}.

Record summary := Summary {
  totalRevenue : num;
  totalSpend : num;
  totalOrders : num;
  totalKenp : num
}.

Record processed := Processed {
  combinedData : list combined;
  kdpData : list (stamped sale);
  adsData : list (stamped campaign);
  summary_of : summary
}.

Definition flatten {A} (syncs : list (sync A)) : list (stamped A) :=
  List.concat (map (λ s, match payload s with
                    | Some items => map (λ i, Stamped i (timestamp s) (syncId s)) items
                    | None => []
                    end) syncs).

(** The predicate of [processedAds.filter(ad => ...)]. *)
Definition matches (kdp : sale) (ad : campaign) : bool :=
  match campaignName ad, title kdp with
  | Some name, Some t =>
      truthy_str name && truthy_str t
      && (includes (toLowerCase name) (toLowerCase (substring0 20 t))
          || includes (toLowerCase t) (toLowerCase (substring0 20 name)))
  | _, _ => false
  end.

(** [xs.reduce((sum, x) => sum + f(x), 0)], in exact arithmetic: this is
    the sum of the source when its additions do not round. *)
Definition sum_of {A} (f : A → num) (xs : list A) : num :=
  fold_left (λ sum x, (sum + f x)%Qc) xs 0%Qc.

Definition combine (processedAds : list (stamped campaign)) (k : stamped sale) : combined :=
  let kdp := item k in
  let matchingAds := List.filter (λ ad, matches kdp (item ad)) processedAds in
  let totalAdSpend := sum_of (λ ad, orq (spend (item ad)) 0%Qc) matchingAds in
  let totalAdSales := sum_of (λ ad, orq (sales (item ad)) 0%Qc) matchingAds in
  let avgAcos :=
    if (0 <? List.length matchingAds)%nat
    then (sum_of (λ ad, orq (acos (item ad)) 0%Qc) matchingAds
          / of_nat (List.length matchingAds))%Qc
    else 0%Qc in
  {| c_date := date kdp;
     c_title := title kdp;
     c_asin := asin kdp;
     c_marketplace := marketplace kdp;
     c_unitsSold := orq (unitsSold kdp) 1%Qc;
     c_royalty := orq (royalty kdp) 0%Qc;
     c_kenpRead := orq (kenpReads kdp) 0%Qc;
     c_adSpend := totalAdSpend;
     c_adSales := totalAdSales;
     c_acos := avgAcos;
     c_netProfit := (orq (royalty kdp) 0%Qc - totalAdSpend)%Qc;
     c_currency := "USD";
     c_syncTimestamp := syncTimestamp k |}.

Definition processUserData (kdpSyncs : list (sync sale)) (adsSyncs : list (sync campaign))
  : processed :=
  let processedKdp := flatten kdpSyncs in
  let processedAds := flatten adsSyncs in
  let combinedData := map (combine processedAds) processedKdp in
  {| combinedData := combinedData;
     kdpData := processedKdp;
     adsData := processedAds;
     summary_of :=
       {| totalRevenue := sum_of c_royalty combinedData;
          totalSpend := sum_of c_adSpend combinedData;
          totalOrders := sum_of c_unitsSold combinedData;
          totalKenp := sum_of c_kenpRead combinedData |} |}.

(** *** The stored syncs *)

(** [entries.slice(-n)] *)
Definition slice_last {A} (n : nat) (entries : list A) : list A :=
  if (n =? 0)%nat then entries else drop (List.length entries - n) entries.

(** The handler of [/api/sync] on the list it stores a sync in:
    [entries.push(entry)], then the cut to the last [cap] entries when there
    are more; [cap] is 100 for the syncs of a user and 1000 for the log. *)
Definition store_sync {A} (cap : nat) (entries : list A) (entry : A) : list A :=
  let pushed := entries ++ [entry] in
  if (cap <? List.length pushed)%nat then slice_last cap pushed else pushed.

End Dashboard.

(** ** Notions and sample data of the statements *)

Module Notions.
Import Content.

(** The cell makes the KENP block of [row_cell] read its match. *)
Definition kenp_block_reads (cell : string) : bool :=
  let text := trim cell in
  (includes text "KENP" || (three_digits text && int_gt text (of_Z 100)))
  && bool_decide (is_Some (first_digits (chars text))).








(** [{ data: { meta: { n: 1 }, book: { title: ..., revenue: 12 } },
      list: [ { title: ... }, null ] }] *)
Definition nested_heap : heap :=
  {[ 0%nat := Obj [("data", VObject 1%nat); ("list", VObject 4%nat)];
     1%nat := Obj [("meta", VObject 2%nat); ("book", VObject 3%nat)];
     2%nat := Obj [("n", VNumber 1%Qc)];
     3%nat := Obj [("title", VString "Empath and Psychic Abilities");
                   ("revenue", VNumber (of_Z 12))];
     4%nat := Arr [VObject 5%nat; VNull];
     5%nat := Obj [("title", VString "The Art of Living Well")] ]}.


(** The titles of the records of a finished traversal. *)
Definition titles_found (r : result (list js_book)) : option (list string) :=
  match r with
  | Ok books => Some (map jb_title books)
  | Throw _ => None
  end.



(** *** What the traversal is to find

    [walks h o path o' path']: a call [traverse(o, path)] leads to a call
    [traverse(o', path')]: there is one for every plain object held by a
    property of an object walked, whether that object looks like a book or
    not, and one for every object that is an item of an array held by such
    a property. *)
Inductive walks (h : heap) : value → string → value → string → Prop :=
| walks_here o path : walks h o path o path
| walks_property l path ob key l' props o' path' :
    h !! l = Some ob →
    (key, VObject l') ∈ own_entries ob →
    h !! l' = Some (Obj props) →
    walks h (VObject l') (child_path path key) o' path' →
    walks h (VObject l) path o' path'
| walks_item l path ob key l' items index li o' path' :
    h !! l = Some ob →
    (key, VObject l') ∈ own_entries ob →
    h !! l' = Some (Arr items) →
    items !! index = Some (VObject li) →
    walks h (VObject li) (item_path (child_path path key) index) o' path' →
    walks h (VObject l) path o' path'.

(** [b] is the record of a plain object that a property of a walked object
    holds and whose name-like field is a string that the classifier
    accepts; its source names the path of that property. *)
Definition finds (h : heap) (now : string) (o : value) (path : string) (b : js_book)
  : Prop :=
  ∃ l p ob key l' props s,
    walks h o path (VObject l) p
    ∧ h !! l = Some ob
    ∧ (key, VObject l') ∈ own_entries ob
    ∧ h !! l' = Some (Obj props)
    ∧ name_like props = VString s
    ∧ isLikelyBookTitle s = true
    ∧ b = pushed_book props s (child_path p key) now.

(** What one property of a walked object contributes. *)
Definition entry_finds (h : heap) (now path key : string) (v : value) (b : js_book)
  : Prop :=
  match v with
  | VObject l' =>
      match h !! l' with
      | Some (Obj props) =>
          (∃ s, name_like props = VString s ∧ isLikelyBookTitle s = true
                ∧ b = pushed_book props s (child_path path key) now)
          ∨ finds h now (VObject l') (child_path path key) b
      | Some (Arr items) =>
          ∃ index li,
            items !! index = Some (VObject li)
            ∧ finds h now (VObject li) (item_path (child_path path key) index) b
      | None => False
      end
  | _ => False
  end.

(** A finished traversal has kept the records it started with and has
    appended the records it is to find, and no other. *)
Definition appends_found (h : heap) (now : string) (o : value) (path : string)
  (books : list js_book) (r : result (list js_book)) : Prop :=
  match r with
  | Ok books' => ∃ found, books' = books ++ found ∧ ∀ b, b ∈ found ↔ finds h now o path b
  | Throw _ => True
  end.

(** *** The merge engine *)

Definition keys {V} (m : jsmap V) : list string := map fst m.




Definition candidate (t : string) (a : option string)
  (royalties sales reads kenpRoy : option num) : book :=
  {| title := Some t; asin := a; id := None;
     totalRoyalties := royalties; totalSales := sales;
     kenpReads := reads; kenpRoyalties := kenpRoy;
     marketplace := None; country := None; source := None;
     extractedAt := None; lastUpdated := None |}.

(** Two observations of one book under different titles. *)
Definition paperback : book :=
  candidate "Empath and Psychic Abilities" (Some "B0BWFC3554")
            (Some (of_Z 10)) None None None.

(** Two observations without identifier whose titles differ in case and in
    surrounding blanks. *)
Definition untagged : book :=
  candidate "The Art of Living Well" None (Some (of_Z 3)) None None None.
Definition untagged_again : book :=
  candidate "  the art of LIVING well " (Some "") None (Some (of_Z 2)) None None.

(** An environment with [crypto.getRandomValues]; the random bytes are
    [seed], [seed + 1], ... *)
Definition web_env (seed : nat) : Advanced.environment :=
  {| Advanced.hasGetRandomValues := true;
     Advanced.randomByte := λ i, (seed + i)%nat;
     Advanced.mathRandom36 := λ _, "0.4fzyo82mvyr";
     Advanced.dateNow := 1700000000000%Z |}.

Definition noon : string := "2024-01-01T12:00:00.000Z".

(** What [extractBooksFromElement] pushes: a title and royalties only. *)
Definition element_candidate : book :=
  {| title := Some "Empath and Psychic Abilities"; asin := None; id := None;
     totalRoyalties := Some (Q2Qc (25 # 2)); totalSales := None;
     kenpReads := None; kenpRoyalties := None;
     marketplace := None; country := None; source := Some "element_extraction";
     extractedAt := Some noon; lastUpdated := None |}.

(** What [extractBooksFromObject] pushes for
    [{ title: "Empath and Psychic Abilities", kenp: 500 }]: read counts and
    no royalties derived from them. *)
Definition object_candidate : book :=
  {| title := Some "Empath and Psychic Abilities"; asin := Some ""; id := None;
     totalRoyalties := Some 0%Qc; totalSales := Some 0%Qc;
     kenpReads := Some (of_Z 500); kenpRoyalties := None;
     marketplace := None; country := None; source := Some "js_object_data.book";
     extractedAt := Some noon; lastUpdated := None |}.

(** Two candidates with read counts whose derived royalties are still 0. *)
Definition many_reads : book :=
  candidate "The Art of Living Well" None None None (Some (of_Z 1000)) (Some 0%Qc).
Definition few_reads : book :=
  candidate "The Art of Living Well" None None None (Some (of_Z 10)) (Some 0%Qc).

(** *** The order of the candidates *)

(** [book.f || 0] *)
Definition reading (f : book → option num) (b : book) : num := orq (f b) 0%Qc.

(** The largest of a list of numbers, taken from left to right. *)
Definition largest (xs : list num) : option num :=
  match xs with
  | [] => None
  | x :: tl => Some (fold_left Math_max tl x)
  end.

(** The candidates of [books] that a script files under the key [k]. *)
Definition content_group (k : string) (books : list book) : list book :=
  filter (λ b, truthy_os (title b) = true ∧ Content.dedupKey b = k) books.
Definition advanced_group (k : string) (books : list book) : list book :=
  filter (λ b, Advanced.isValidBookData b = true ∧ Advanced.dedupKey b = k) books.

(** How a metric [f] of the record under a key changes when a candidate is
    filed under the key; [acc] is the metric of the record stored so far,
    [None] when the key is new. *)
Definition content_vstep (f : book → option num) (acc : option (option num)) (b : book)
  : option num :=
  Some (match acc with
        | Some x => Math_max (orq x 0%Qc) (reading f b)
        | None => reading f b
        end).

Definition advanced_vstep (f : book → option num) (acc : option (option num)) (b : book)
  : option num :=
  match acc with
  | Some x => Some (Math_max (orq x 0%Qc) (reading f b))
  | None => f b
  end.

(** The metrics that both scripts merge without deriving them. *)
Definition plain_metric (f : book → option num) : Prop :=
  f = totalRoyalties ∨ f = totalSales ∨ f = kenpReads.

(** *** String fields *)

(** The first non-empty value among [vals], else [default]. *)
Fixpoint first_non_empty (vals : list (option string)) (default : string) : string :=
  match vals with
  | [] => default
  | v :: tl => if truthy_os v then ors v default else first_non_empty tl default
  end.

(** A stored record and a later observation of the same ASIN from another
    marketplace. *)
Definition stored_book : book :=
  {| title := Some "Empath and Psychic Abilities"; asin := Some "B0BWFC3554";
     id := None;
     totalRoyalties := Some (of_Z 10); totalSales := Some (of_Z 3);
     kenpReads := Some 0%Qc; kenpRoyalties := Some 0%Qc;
     marketplace := Some "amazon.com"; country := Some "US";
     source := Some "table_0_row_1"; extractedAt := Some noon; lastUpdated := None |}.
Definition incoming_book : book :=
  {| title := Some "Empath and Psychic Abilities"; asin := Some "B0BWFC3554";
     id := None;
     totalRoyalties := Some (of_Z 4); totalSales := Some (of_Z 1);
     kenpReads := Some 0%Qc; kenpRoyalties := Some 0%Qc;
     marketplace := Some "amazon.co.uk"; country := Some "UK";
     source := Some "table_2_row_5"; extractedAt := Some noon; lastUpdated := None |}.

(** *** The reconciler *)

(** The sum of a list of numbers. *)
Definition total (xs : list num) : num := foldr Qcplus 0%Qc xs.



Definition sale_of (t : string) (earnings : num) : Dashboard.sale :=
  {| Dashboard.title := Some t; Dashboard.date := None; Dashboard.asin := None;
     Dashboard.marketplace := None; Dashboard.unitsSold := None;
     Dashboard.royalty := Some earnings; Dashboard.kenpReads := None |}.

Definition ad_of (name : string) (spend sales acos : num) : Dashboard.campaign :=
  {| Dashboard.campaignName := Some name; Dashboard.spend := Some spend;
     Dashboard.sales := Some sales; Dashboard.acos := Some acos |}.

Definition one_sync {A} (items : list A) : Dashboard.sync A :=
  Dashboard.Sync (Some items) noon "sync-1".

(** The scenario of the specification. *)
Definition scenario_sale : Dashboard.sale :=
  sale_of "Empath and Psychic Abilities" (of_Z 10).
Definition scenario_ad : Dashboard.campaign :=
  ad_of "Empath and Psychic Abilities - Campaign" (of_Z 3) (of_Z 1) (Q2Qc (3 # 10)).


(** The unit count of the record is missing or zero. *)
Definition no_units (s : Dashboard.sale) : Prop :=
  Dashboard.unitsSold s = None ∨ Dashboard.unitsSold s = Some 0%Qc.

(** *** The minimum signal *)

Definition positive (x : option num) : Prop := ∃ v, x = Some v ∧ (0 < v)%Qc.

(** A non-empty title and at least one of the earnings, the units sold and
    the read count above zero. *)
Definition minimum_signal (b : book) : Prop :=
  (∃ t, title b = Some t ∧ t ≠ "")
  ∧ (positive (totalRoyalties b) ∨ positive (totalSales b) ∨ positive (kenpReads b)).

(** *** Fallback identifiers *)

(** The candidate carries neither an [id] nor an ASIN. *)
Definition unidentified (b : book) : Prop :=
  truthy_os (id b) = false ∧ truthy_os (asin b) = false.

(** The value of a hexadecimal digit. *)
Definition unhex (c : ascii) : nat :=
  if is_digit c then (code c - 48)%nat else (code c - 87)%nat.

(** *** Titles *)

Definition has_letter (text : string) : Prop :=
  ∃ c, c ∈ chars text ∧ is_letter c = true.

(** Letters, digits, blanks and the punctuation of [title_punctuation]
    only. *)
Definition only_valid_chars (text : string) : Prop :=
  ∀ c, c ∈ chars text → Content.valid_char c = true.

Definition all_uppercase (text : string) : Prop := toUpperCase text = text.

(** A word of the extension's blocklist occurs in the lower-cased text. *)
Definition names_ui_keyword (text : string) : Prop :=
  ∃ keyword, keyword ∈ Content.uiKeywords ∧ includes (toLowerCase text) keyword = true.

(** The lower-cased text is a word of the advanced script's blocklist. *)
Definition is_ui_keyword (text : string) : Prop :=
  toLowerCase text ∈ Advanced.uiKeywords.

(** What the extension's classifier accepts. *)
Definition content_title (text : string) : Prop :=
  (3 ≤ String.length text ≤ 200)%nat
  ∧ has_letter text
  ∧ only_valid_chars text
  ∧ ¬ names_ui_keyword text
  ∧ (all_uppercase text → (String.length text < 20)%nat).

(** What the advanced script's classifier accepts. *)
Definition advanced_title (text : string) : Prop :=
  (3 ≤ String.length text ≤ 300)%nat
  ∧ has_letter text
  ∧ only_valid_chars text
  ∧ ¬ is_ui_keyword text.

(** Forty characters, all upper case. *)
Definition shouting : string := "THE COMPLETE HISTORY OF THE ROMAN EMPIRE".

(** Two hundred and fifty letters. *)
Definition long_title : string := String.concat "" (repeat "Abcde" 50).

(** *** Canonical records *)

(** The properties of a record of the extension's map that a second pass
    reads back unchanged. *)
Definition settled (c : book) : Prop :=
  is_Some (asin c)
  ∧ is_Some (totalRoyalties c) ∧ is_Some (totalSales c) ∧ is_Some (kenpReads c)
  ∧ truthy_os (marketplace c) = true ∧ truthy_os (country c) = true
  ∧ truthy_os (source c) = true.

(** An entry of the extension's map: the record is titled, settled and
    filed under its own key. *)
Definition content_entry (e : string * book) : Prop :=
  truthy_os (title e.2) = true ∧ Content.dedupKey e.2 = e.1 ∧ settled e.2.

(** The fields a second pass leaves as they are. *)
Definition same_but_derived (c c' : book) : Prop :=
  title c' = title c ∧ asin c' = asin c
  ∧ totalRoyalties c' = totalRoyalties c ∧ totalSales c' = totalSales c
  ∧ kenpReads c' = kenpReads c
  ∧ marketplace c' = marketplace c ∧ country c' = country c ∧ source c' = source c.

(** [c'] has the title of [c] and no metric below that of [c]. *)
Definition improves (c c' : book) : Prop :=
  title c' = title c
  ∧ (reading totalRoyalties c ≤ reading totalRoyalties c')%Qc
  ∧ (reading totalSales c ≤ reading totalSales c')%Qc
  ∧ (reading kenpReads c ≤ reading kenpReads c')%Qc
  ∧ (reading kenpRoyalties c ≤ reading kenpRoyalties c')%Qc.

(** The record carries an identifier and a country. *)
Definition identified (c : book) : Prop :=
  (truthy_os (id c) = true ∨ truthy_os (asin c) = true)
  ∧ truthy_os (country c) = true.

(** *** Records of the traversal *)

Definition primitive (v : value) : bool :=
  match v with VObject _ => false | _ => true end.

(** A primitive, or a plain object whose properties are primitives. *)
Definition flat_record (h : heap) (v : value) : bool :=
  match v with
  | VObject l =>
      match h !! l with
      | Some (Obj props) =>
          negb (Content.shadows_hasOwnProperty (Obj props))
          && forallb (λ '(_, v'), primitive v') props
      | _ => false
      end
  | _ => true
  end.

(** A primitive, or an array of flat records. *)
Definition record_table (h : heap) (v : value) : bool :=
  match v with
  | VObject l =>
      match h !! l with
      | Some (Arr items) => forallb (flat_record h) items
      | _ => false
      end
  | _ => true
  end.

(** A plain object whose properties are primitives and arrays of flat
    records, as in [{ books: [ {...}, {...} ], total: 2 }]. *)
Definition tables_only (h : heap) (root : value) : bool :=
  match root with
  | VObject l =>
      match h !! l with
      | Some (Obj props) =>
          negb (Content.shadows_hasOwnProperty (Obj props))
          && forallb (λ '(_, v), record_table h v) props
      | _ => false
      end
  | _ => false
  end.

(** [{ books: [ { title: ..., revenue: 12 }, { title: ..., revenue: 3 } ],
      total: 2 }] *)
Definition table_heap : heap :=
  {[ 0%nat := Obj [("books", VObject 1%nat); ("total", VNumber (of_Z 2))];
     1%nat := Arr [VObject 2%nat; VObject 3%nat];
     2%nat := Obj [("title", VString "Empath and Psychic Abilities");
                   ("revenue", VNumber (of_Z 12))];
     3%nat := Obj [("title", VString "The Art of Living Well");
                   ("revenue", VNumber (of_Z 3))] ]}.

(** *** Amounts the source adds exactly *)

Definition whole (v : num) : Prop := ∃ z : Z, v = of_Z z.

(** The royalties of the rows and the spend of the campaigns are whole
    numbers, and their absolute values, the spend of a campaign counted
    for every row it matches, add up to no more than 2^53. Every sum the
    reconciler takes of them is then a sum of doubles without rounding. *)
Definition exact_amounts (kdps : list (Dashboard.stamped Dashboard.sale))
  (ads : list (Dashboard.stamped Dashboard.campaign)) : Prop :=
  (∀ k, k ∈ kdps → whole (orq (Dashboard.royalty (Dashboard.item k)) 0%Qc))
  ∧ (∀ ad, ad ∈ ads → whole (orq (Dashboard.spend (Dashboard.item ad)) 0%Qc))
  ∧ (total
       (map (λ k,
               (Qcabs (orq (Dashboard.royalty (Dashboard.item k)) 0%Qc)
                + total
                    (map (λ ad, Qcabs (orq (Dashboard.spend (Dashboard.item ad)) 0%Qc))
                         (List.filter
                            (λ ad, Dashboard.matches (Dashboard.item k) (Dashboard.item ad))
                            ads)))%Qc)
            kdps)
     ≤ of_Z (2 ^ 53))%Qc.

(** *** Tables *)

(** The type a header text stands for: that of the first group of
    keywords, in the order title, ASIN, revenue, sales, reads, country, one
    of which occurs in the lower-cased text. *)
Definition header_class (text : string) : option Advanced.cell_type :=
  let text := toLowerCase text in
  if includes text "title" || includes text "book" || includes text "name"
  then Some Advanced.TTitle
  else if includes text "asin" || includes text "id" then Some Advanced.TAsin
  else if includes text "royalt" || includes text "revenue" || includes text "earning"
  then Some Advanced.TRevenue
  else if includes text "sales" || includes text "units" || includes text "sold"
  then Some Advanced.TSales
  else if includes text "kenp" || includes text "read" then Some Advanced.TKenp
  else if includes text "country" || includes text "market" then Some Advanced.TCountry
  else None.

(** The positions a header map holds for a type. *)
Definition columns (type : Advanced.cell_type) (map : Advanced.header_map) : list nat :=
  match type with
  | Advanced.TTitle => Advanced.hm_title map
  | Advanced.TAsin => Advanced.hm_asin map
  | Advanced.TRevenue => Advanced.hm_revenue map
  | Advanced.TSales => Advanced.hm_sales map
  | Advanced.TKenp => Advanced.hm_kenp map
  | Advanced.TCountry => Advanced.hm_country map
  | Advanced.TUnknown => []
  end.

Definition report_headers : list Advanced.header :=
  [ Advanced.Header "title" 0; Advanced.Header "royalties paid" 1;
    Advanced.Header "units sold" 2; Advanced.Header "pages read" 3 ].

(** The row is passed to [extractBookDataFromRow] and a cell of it makes
    the KENP block read its match. *)
Definition row_throws (cells : list string) : bool :=
  (2 <=? List.length cells)%nat && existsb kenp_block_reads cells.

(** *** Widgets and elements *)

(** [t] is a trimmed heading that the classifier accepts, and no accepted
    heading is longer. *)
Definition widget_choice (headings : list string) (t : string) : Prop :=
  Content.isLikelyBookTitle t = true
  ∧ t ∈ map trim headings
  ∧ ∀ h, h ∈ headings → Content.isLikelyBookTitle (trim h) = true →
         (String.length (trim h) ≤ String.length t)%nat.

(** The characters a money match can hold or start with. *)
Definition money_char (c : ascii) : bool :=
  is_digit c || Ascii.eqb c "," || Ascii.eqb c "." || Ascii.eqb c "$".

(** *** Rankings *)

(** Royalties that do not rise along the list. *)
Fixpoint falling (l : list book) : Prop :=
  match l with
  | [] => True
  | a :: tl =>
      Forall (λ b, (reading totalRoyalties b ≤ reading totalRoyalties a)%Qc) tl
      ∧ falling tl
  end.

(** [t] is the first book of [l] with the highest royalties. *)
Definition first_best (l : list book) (t : book) : Prop :=
  ∃ pre post,
    l = pre ++ t :: post
    ∧ Forall (λ b, (reading totalRoyalties b < reading totalRoyalties t)%Qc) pre
    ∧ Forall (λ b, (reading totalRoyalties b ≤ reading totalRoyalties t)%Qc) post.

End Notions.

(** ** Properties *)

Section RowExtractor.
Import Content Notions.

Lemma row_cell_throws v cell :
  kenp_block_reads cell = true → row_cell v cell = Throw ReferenceError.
Proof.
  unfold kenp_block_reads, row_cell. cbv zeta.
  intros [Hk Hd%bool_decide_eq_true]%andb_true_iff.
  rewrite Hk. destruct Hd as [d ->]. reflexivity.
Qed.

Lemma row_cell_returns v cell :
  kenp_block_reads cell = false → ∃ v', row_cell v cell = Ok v'.
Proof.
  unfold kenp_block_reads, row_cell. cbv zeta. intros H.
  destruct (includes (trim cell) "KENP"
            || three_digits (trim cell) && int_gt (trim cell) (of_Z 100)) eqn:Hk.
  - simpl in H. apply bool_decide_eq_false in H.
    destruct (first_digits (chars (trim cell))) eqn:Hd.
    + exfalso. apply H. eauto.
    + simpl. eauto.
  - simpl. eauto.
Qed.

(** The only exception of the row loop is the [ReferenceError] of the KENP
    block, and it is thrown exactly when some cell reaches the read. *)
Lemma row_loop_throws cells :
  ∀ v, existsb kenp_block_reads cells = true →
       forEach row_cell cells v = Throw ReferenceError.
Proof.
  induction cells as [|c cells IH]; intros v H; simpl in *; [discriminate|].
  destruct (kenp_block_reads c) eqn:Hc.
  - rewrite (row_cell_throws v c Hc). reflexivity.
  - destruct (row_cell_returns v c Hc) as [v' ->]. simpl. apply IH, H.
Qed.

Lemma row_loop_returns cells :
  ∀ v, existsb kenp_block_reads cells = false →
       ∃ v', forEach row_cell cells v = Ok v'.
Proof.
  induction cells as [|c cells IH]; intros v H; simpl in *; [eauto|].
  apply orb_false_iff in H as [Hc H].
  destruct (row_cell_returns v c Hc) as [v' ->]. simpl. apply IH, H.
Qed.

Lemma extractBookDataFromRow_throws_iff cells source now :
  extractBookDataFromRow cells source now = Throw ReferenceError
  ↔ existsb kenp_block_reads cells = true.
Proof.
  unfold extractBookDataFromRow. split.
  - intros H. destruct (existsb kenp_block_reads cells) eqn:He; [reflexivity|].
    destruct (row_loop_returns cells row_init He) as [v' Hv].
    rewrite Hv in H. simpl in H.
    destruct (truthy_str (r_title v') && _); discriminate.
  - intros H. rewrite (row_loop_throws cells row_init H). reflexivity.
Qed.

(** C1. The row extractor does throw: a row with a cell that is a standalone
    integer of three digits above 100, or that contains KENP followed by
    digits, makes [extractBookDataFromRow] raise a [ReferenceError], and
    [extractFromTables] lets it through. *)
Theorem C1_row_extractor_throws (source now : string) :
  extractBookDataFromRow ["The Art of Living Well"; "250"] source now
    = Throw ReferenceError
  ∧ extractBookDataFromRow ["The Art of Living Well"; "KENP read: 1200"] source now
    = Throw ReferenceError
  ∧ extractFromRows 0 0 [["Title"; "Pages"]; ["The Art of Living Well"; "250"]] now []
    = Throw ReferenceError.
Proof. repeat split; vm_compute; reflexivity. Qed.

End RowExtractor.

Section NestedObjects.
Import Content Notions.


(** A loop whose every round appends what it is to find appends what its
    rounds are to find. *)
Lemma forEachIndexed_collects {A B} (f : nat → A → list B → result (list B))
  (P : nat → A → B → Prop) xs :
  ∀ i,
    (∀ j x s s', xs !! j = Some x → f (i + j) x s = Ok s' →
                 ∃ found, s' = s ++ found ∧ ∀ b, b ∈ found ↔ P (i + j) x b) →
    ∀ s s', forEachIndexed f i xs s = Ok s' →
            ∃ found, s' = s ++ found
                     ∧ ∀ b, b ∈ found ↔ ∃ j x, xs !! j = Some x ∧ P (i + j) x b.
Proof.
  induction xs as [|x xs IH]; intros i Hf s s'; cbn [forEachIndexed].
  - intros [= <-]. exists []. rewrite app_nil_r. split; [done|].
    intros b. split; [by intros ?%elem_of_nil|]. by intros (j & y & Hj & _).
  - destruct (f i x s) as [s1|e] eqn:Hx; cbn [bind]; [|done]. intros Hrest.
    destruct (Hf 0 x s s1) as (f1 & -> & H1); [done|by rewrite Nat.add_0_r|].
    rewrite Nat.add_0_r in H1.
    destruct (IH (S i)) with (s := s ++ f1) (s' := s') as (f2 & -> & H2); [|done|].
    { intros j y t t' Hj Hy. replace (S i + j)%nat with (i + S j)%nat in * by lia.
      by apply Hf. }
    exists (f1 ++ f2). rewrite app_assoc. split; [done|].
    intros b. rewrite elem_of_app, H1, H2. split.
    + intros [HP|(j & y & Hj & HP)].
      * exists 0, x. by rewrite Nat.add_0_r.
      * exists (S j), y. by replace (i + S j)%nat with (S i + j)%nat by lia.
    + intros ([|j] & y & Hj & HP).
      * left. cbn in Hj. injection Hj as <-. by rewrite Nat.add_0_r in HP.
      * right. exists j, y. by replace (S i + j)%nat with (i + S j)%nat by lia.
Qed.


(** The test on a plain object pushes its record exactly when its
    name-like field is a string that the classifier accepts. *)
Lemma visit_object_finds js h props currentPath now books books' :
  visit_object js h props currentPath now books = Ok books' →
  ∃ found,
    books' = books ++ found
    ∧ ∀ b, b ∈ found
           ↔ ∃ s, name_like props = VString s ∧ isLikelyBookTitle s = true
                  ∧ b = pushed_book props s currentPath now.
Proof.
  unfold visit_object.
  assert (∀ bs : list js_book, bs = books →
            (∀ s, name_like props = VString s → isLikelyBookTitle s = false) →
            ∃ found, bs = books ++ found
                     ∧ ∀ b, b ∈ found
                            ↔ ∃ s, name_like props = VString s
                                   ∧ isLikelyBookTitle s = true
                                   ∧ b = pushed_book props s currentPath now) as Hnone.
  { intros bs -> Hno. exists []. rewrite app_nil_r. split; [done|].
    intros b. split; [by intros ?%elem_of_nil|].
    intros (s & Hs & Hacc & _). rewrite (Hno s Hs) in Hacc. done. }
  destruct (truthy (name_like props)) eqn:Ht.
  - destruct (name_like props) as [| |q|n|s|l] eqn:Hn; cbn [titleCheck bind];
      try done; try (destruct (titleCheck js h _) as [[|]|]; cbn [bind];
                     intros [= <-]; by apply Hnone).
    + destruct (isLikelyBookTitle s) eqn:Hs; intros [= <-].
      * exists [pushed_book props s currentPath now]. split; [done|].
        intros b. rewrite list_elem_of_singleton. split; [intros ->; eauto|].
        by intros (s' & [= <-] & _ & ->).
      * apply Hnone; [done|]. by intros s' [= <-].
    + intros H. destruct (match h !! l with Some _ => _ | None => _ end) as [[|]|];
        cbn [bind] in H; try done; injection H as <-; by apply Hnone.
  - intros [= <-]. apply Hnone; [done|]. intros s Hs. rewrite Hs in Ht.
    cbn [truthy] in Ht. unfold isLikelyBookTitle. by rewrite Ht.
Qed.

(** A title that is an object whose [length] the engine finds out of range
    is no title: the classifier returns [false] and the traversal goes
    on. *)
Lemma titleCheck_coerced (js : coercion) h l props :
  h !! l = Some (Obj props) →
  (∃ s, prop "length" props = VString s) ∨ (∃ l', prop "length" props = VObject l') →
  js h (prop "length" props) = Ok true →
  titleCheck js h (VObject l) = Ok false.
Proof.
  intros Hl Hv Hjs. cbn [titleCheck]. rewrite Hl.
  destruct Hv as [[s Hs]|[l' Hs]]; rewrite Hs in Hjs |- *; by rewrite Hjs.
Qed.


Lemma finds_nothing h now o path b :
  (∀ l ob, o = VObject l → h !! l = Some ob → False) → ¬ finds h now o path b.
Proof.
  intros Hno (l & p & ob & key & l' & props & s & Hw & Hl & _).
  inversion Hw; subst; eauto.
Qed.

(** What a walked object finds is what its properties contribute. *)
Lemma finds_entries h now l ob path b :
  h !! l = Some ob →
  finds h now (VObject l) path b
  ↔ ∃ j e, own_entries ob !! j = Some e ∧ entry_finds h now path e.1 e.2 b.
Proof.
  intros Hl. split.
  - intros (l0 & p0 & ob0 & key & l' & props & s & Hw & Hl0 & Hin & Hl' & Hn & Hacc & ->).
    inversion Hw as [o1 p1|l1 p1 ob1 key1 l2 props1 o1 p2 Hl1 Hin1 Hl2 Hw1
                    |l1 p1 ob1 key1 l2 items index li o1 p2 Hl1 Hin1 Hl2 Hi Hw1]; subst.
    + rewrite Hl in Hl0. injection Hl0 as <-.
      apply list_elem_of_lookup in Hin as [j Hj]. exists j, (key, VObject l').
      split; [done|]. cbn [fst snd entry_finds]. rewrite Hl'. left. eauto.
    + rewrite Hl in Hl1. injection Hl1 as <-.
      apply list_elem_of_lookup in Hin1 as [j Hj]. exists j, (key1, VObject l2).
      split; [done|]. cbn [fst snd entry_finds]. rewrite Hl2. right.
      by exists l0, p0, ob0, key, l', props, s.
    + rewrite Hl in Hl1. injection Hl1 as <-.
      apply list_elem_of_lookup in Hin1 as [j Hj]. exists j, (key1, VObject l2).
      split; [done|]. cbn [fst snd entry_finds]. rewrite Hl2. exists index, li.
      split; [done|]. by exists l0, p0, ob0, key, l', props, s.
  - intros (j & [key v] & Hj & He). cbn [fst snd] in He.
    assert ((key, v) ∈ own_entries ob) as Hin by (apply list_elem_of_lookup; eauto).
    destruct v as [| | | | |l']; try done. cbn [entry_finds] in He.
    destruct (h !! l') as [[props|items]|] eqn:Hl'; [| |done].
    + destruct He as [(s & Hn & Hacc & ->)|He].
      * exists l, path, ob, key, l', props, s. repeat split; try done. constructor.
      * destruct He as (l0 & p0 & ob0 & key0 & l0' & props0 & s & Hw & Hrest).
        exists l0, p0, ob0, key0, l0', props0, s. split; [|done].
        by eapply walks_property.
    + destruct He as (index & li & Hi & l0 & p0 & ob0 & key0 & l0' & props0 & s & Hw & Hrest).
      exists l0, p0, ob0, key0, l0', props0, s. split; [|done].
      by eapply walks_item.
Qed.

(** Whatever the traversal returns, it has kept the records found before
    and has appended the records it is to find, and no other. *)
Lemma traverse_finds js h now stack :
  ∀ o path books, appends_found h now o path books (traverse js stack h now o path books).
Proof.
  induction stack as [|n IH]; intros o path books; [done|].
  change (traverse js (S n) h now o path books)
    with (traverse_body (traverse js n h now) js h now o path books).
  assert (∀ bs : list js_book, bs = books →
            (∀ l ob, o = VObject l → h !! l = Some ob → False) →
            appends_found h now o path books (Ok bs)) as Hnone.
  { intros bs -> Hno. exists []. rewrite app_nil_r. split; [done|].
    intros b. split; [by intros ?%elem_of_nil|]. intros Hf.
    by apply finds_nothing in Hf. }
  unfold traverse_body.
  destruct o as [| | | | |l]; try (by apply Hnone).
  destruct (h !! l) as [ob|] eqn:Hl; [|apply Hnone; [done|]; congruence].
  destruct (shadows_hasOwnProperty ob); [done|].
  match goal with |- appends_found _ _ _ _ _ ?r => destruct r as [books'|e] eqn:Hrun end;
    [|done].
  apply (forEachIndexed_collects _ (λ _ e b, entry_finds h now path e.1 e.2 b)) in Hrun.
  { destruct Hrun as (found & -> & Hfound). exists found. split; [done|].
    intros b. rewrite Hfound. symmetry. by apply finds_entries. }
  clear books' Hrun. intros j [key v] bs bs' _ Hstep. cbn [fst snd].
  assert (∀ t : list js_book, t = bs → ¬ (∃ b, entry_finds h now path key v b) →
            ∃ found, t = bs ++ found ∧ ∀ b, b ∈ found ↔ entry_finds h now path key v b)
    as Hskip.
  { intros t -> Hno. exists []. rewrite app_nil_r. split; [done|].
    intros b. split; [by intros ?%elem_of_nil|]. intros Hb. exfalso. eauto. }
  cbv beta iota zeta in Hstep.
  destruct v as [| |q|q|q|l']; cbv beta iota in Hstep;
    try (injection Hstep as <-; apply Hskip; [done|]; by intros [? ?]).
  cbn [entry_finds]. cbn [entry_finds] in Hskip.
  destruct (h !! l') as [[props|items]|] eqn:Hl'.
  - destruct (visit_object js h props (child_path path key) now bs) as [bs1|e] eqn:Hv;
      cbn [bind] in Hstep; [|done].
    apply visit_object_finds in Hv as (f1 & -> & H1).
    pose proof (IH (VObject l') (child_path path key) (bs ++ f1)) as Hrec.
    rewrite Hstep in Hrec. destruct Hrec as (f2 & -> & H2).
    exists (f1 ++ f2). rewrite app_assoc. split; [done|].
    intros b. by rewrite elem_of_app, H1, H2.
  - apply (forEachIndexed_collects _
             (λ index item b,
                match item with
                | VObject li =>
                    finds h now (VObject li) (item_path (child_path path key) index) b
                | _ => False
                end)) in Hstep.
    + destruct Hstep as (found & -> & Hfound). exists found. split; [done|].
      intros b. rewrite Hfound. split.
      * intros (index & item & Hi & Hb). destruct item as [| | | | |li]; try done.
        by exists index, li.
      * intros (index & li & Hi & Hb). by exists index, (VObject li).
    + intros index item t t' _ Hitem. rewrite Nat.add_0_l in Hitem |- *.
      cbv beta iota in Hitem.
      destruct item as [| |q|q|q|li]; cbv beta iota in Hitem;
        try (injection Hitem as <-; exists []; rewrite app_nil_r; split; [done|];
             intros b; split; [by intros ?%elem_of_nil|done]).
      pose proof (IH (VObject li) (item_path (child_path path key) index) t) as Hrec.
      by rewrite Hitem in Hrec.
  - injection Hstep as <-. apply Hskip; [done|]. by intros [? ?].
Qed.













(** The records the traversal finds in [nested_heap]: the book under the
    non-matching node [data], and nothing for the book that is an item of
    the array [list]. *)
Lemma nested_heap_books js :
  titles_found (extractBooksFromObject js 11 nested_heap noon (VObject 0%nat))
  = Some ["Empath and Psychic Abilities"].
Proof. vm_compute. reflexivity. Qed.

End NestedObjects.

Section OrderedMaps.
Import Notions.
Context {V : Type}.
Implicit Types (m : jsmap V) (k : string) (v : V).

Lemma map_get_None m k : map_get k m = None ↔ k ∉ keys m.
Proof.
  induction m as [|[k' v'] m IH]; simpl.
  - split; [intros _ H; by apply elem_of_nil in H|done].
  - destruct (String.eqb_spec k k') as [->|Hne].
    + split; [done|]. intros H. exfalso. apply H. left.
    + rewrite IH, not_elem_of_cons. tauto.
Qed.

Lemma map_get_Some m k v : map_get k m = Some v → k ∈ keys m.
Proof.
  intros H. destruct (decide (k ∈ keys m)) as [|Hn]; [done|].
  apply map_get_None in Hn. congruence.
Qed.

Lemma keys_set_present m k v : k ∈ keys m → keys (map_set k v m) = keys m.
Proof.
  induction m as [|[k' v'] m IH]; simpl; intros H.
  - by apply elem_of_nil in H.
  - destruct (String.eqb_spec k k') as [->|Hne]; [done|].
    simpl. f_equal. apply IH. apply elem_of_cons in H as [?|?]; [done|done].
Qed.

Lemma keys_set_absent m k v : k ∉ keys m → keys (map_set k v m) = keys m ++ [k].
Proof.
  induction m as [|[k' v'] m IH]; simpl; intros H; [done|].
  apply not_elem_of_cons in H as [Hne H].
  destruct (String.eqb_spec k k') as [->|_]; [done|].
  simpl. f_equal. by apply IH.
Qed.

Lemma keys_set_elem m k v k' : k' ∈ keys (map_set k v m) ↔ k' = k ∨ k' ∈ keys m.
Proof.
  destruct (decide (k ∈ keys m)) as [Hin|Hn].
  - rewrite keys_set_present by done. split; [tauto|]. by intros [->|?].
  - rewrite keys_set_absent by done. rewrite elem_of_app, list_elem_of_singleton.
    tauto.
Qed.

Lemma keys_set_NoDup m k v : NoDup (keys m) → NoDup (keys (map_set k v m)).
Proof.
  intros Hnd. destruct (decide (k ∈ keys m)) as [Hin|Hn].
  - by rewrite keys_set_present.
  - rewrite keys_set_absent by done. apply NoDup_app. repeat split; [done| |].
    + intros x Hx ->%list_elem_of_singleton. done.
    + apply NoDup_singleton.
Qed.



Lemma map_get_set_ne m k k' v :
  k ≠ k' → map_get k (map_set k' v m) = map_get k m.
Proof.
  intros Hne. induction m as [|[k'' v''] m IH]; simpl.
  - by destruct (String.eqb_spec k k').
  - destruct (String.eqb_spec k' k'') as [->|Hne']; simpl.
    + by destruct (String.eqb_spec k k'').
    + by rewrite IH.
Qed.

Lemma map_get_set m k k' v :
  map_get k (map_set k' v m) = if decide (k' = k) then Some v else map_get k m.
Proof.
  destruct (decide (k' = k)) as [->|Hne].
  - induction m as [|[k'' v''] m IH]; simpl.
    + by rewrite String.eqb_refl.
    + destruct (String.eqb_spec k k'') as [->|Hne]; simpl.
      * by rewrite String.eqb_refl.
      * by destruct (String.eqb_spec k k'').
  - by apply map_get_set_ne.
Qed.

Lemma map_get_set_eq m k v : map_get k (map_set k v m) = Some v.
Proof. by rewrite map_get_set, decide_True. Qed.

Lemma map_get_values m k v : map_get k m = Some v → v ∈ map_values m.
Proof.
  unfold map_values. induction m as [|[k' v'] m IH]; simpl; [done|].
  destruct (String.eqb k k'); [intros [= ->]; left|intros H; right; by apply IH].
Qed.

Lemma map_set_values (P : V → Prop) m k v :
  P v → Forall P (map_values m) → Forall P (map_values (map_set k v m)).
Proof.
  unfold map_values. intros Hv. induction m as [|[k' v'] m IH]; simpl; intros H.
  - by constructor.
  - apply Forall_cons in H as [Hv' H].
    destruct (String.eqb k k'); simpl; constructor; auto.
Qed.

End OrderedMaps.

Section DedupKeys.
Import Notions.




Lemma content_step_NoDup now m b :
  NoDup (keys m) → NoDup (keys (Content.dedup_step now m b)).
Proof.
  unfold Content.dedup_step. intros Hnd.
  destruct (truthy_os (title b)); simpl; [|done].
  destruct (map_get (Content.dedupKey b) m); by apply keys_set_NoDup.
Qed.

Lemma content_step_keys now m b k :
  k ∈ keys (Content.dedup_step now m b)
  ↔ k ∈ keys m ∨ (truthy_os (title b) = true ∧ Content.dedupKey b = k).
Proof.
  unfold Content.dedup_step.
  destruct (truthy_os (title b)); simpl;
    [|split; [by left|by intros [?|[? _]]]].
  assert (k = Content.dedupKey b ∨ k ∈ keys m
          ↔ k ∈ keys m ∨ true = true ∧ Content.dedupKey b = k) as Hiff
    by (split; intros [?|?]; intuition congruence).
  destruct (map_get (Content.dedupKey b) m); by rewrite keys_set_elem.
Qed.

Lemma content_fold_keys now books :
  ∀ m, NoDup (keys m) →
    NoDup (keys (fold_left (Content.dedup_step now) books m))
    ∧ ∀ k, k ∈ keys (fold_left (Content.dedup_step now) books m)
           ↔ k ∈ keys m
             ∨ ∃ b, b ∈ books ∧ truthy_os (title b) = true ∧ Content.dedupKey b = k.
Proof.
  induction books as [|b books IH]; intros m Hnd; simpl.
  - split; [done|]. intros k. split; [by left|].
    intros [?|(b & Hb & _)]; [done|]. by apply elem_of_nil in Hb.
  - destruct (IH (Content.dedup_step now m b)) as [Hnd' Hk];
      [by apply content_step_NoDup|].
    split; [done|]. intros k. rewrite Hk, content_step_keys.
    split.
    + intros [[?|[? ?]]|(b' & ? & ? & ?)]; [by left| |].
      * right. exists b. split; [left|done].
      * right. exists b'. split; [by right|done].
    + intros [?|(b' & [->|?]%elem_of_cons & ? & ?)]; [by left; left| |].
      * left. by right.
      * right. by exists b'.
Qed.




End DedupKeys.

Section MergeOrder.
Import Notions.

(** *** [Math.max] *)

Lemma Math_max_l a b : (a ≤ Math_max a b)%Qc.
Proof.
  unfold Math_max, gtb. case_bool_decide; [by apply Qclt_le_weak|apply Qcle_refl].
Qed.

Lemma Math_max_r a b : (b ≤ Math_max a b)%Qc.
Proof.
  unfold Math_max, gtb. case_bool_decide; [apply Qcle_refl|by apply Qcnot_lt_le].
Qed.

Lemma Math_max_cases a b : Math_max a b = a ∨ Math_max a b = b.
Proof. unfold Math_max. destruct (gtb b a); auto. Qed.

Lemma fold_max_spec xs :
  ∀ x, (fold_left Math_max xs x = x ∨ fold_left Math_max xs x ∈ xs)
       ∧ (x ≤ fold_left Math_max xs x)%Qc
       ∧ ∀ y, y ∈ xs → (y ≤ fold_left Math_max xs x)%Qc.
Proof.
  induction xs as [|z xs IH]; intros x; simpl.
  - split; [by left|]. split; [apply Qcle_refl|]. intros y Hy. by apply elem_of_nil in Hy.
  - destruct (IH (Math_max x z)) as (Hin & Hle & Hall).
    split; [|split].
    + destruct Hin as [->|Hin]; [|right; by right].
      destruct (Math_max_cases x z) as [->| ->]; [by left|right; left].
    + eapply Qcle_trans; [apply Math_max_l|done].
    + intros y [->|Hy]%elem_of_cons; [|by apply Hall].
      eapply Qcle_trans; [apply Math_max_r|done].
Qed.

(** The largest element is a member that bounds all members. *)
Lemma largest_spec xs m :
  largest xs = Some m → m ∈ xs ∧ ∀ y, y ∈ xs → (y ≤ m)%Qc.
Proof.
  destruct xs as [|x xs]; [done|]. intros [= <-].
  destruct (fold_max_spec xs x) as (Hin & Hle & Hall). split.
  - destruct Hin as [->|Hin]; [left|by right].
  - intros y [->|Hy]%elem_of_cons; [done|by apply Hall].
Qed.

(** [Math.max] over a list does not depend on the order of the list. *)
Lemma largest_perm xs ys : xs ≡ₚ ys → largest xs = largest ys.
Proof.
  intros Hp.
  destruct (largest xs) as [m|] eqn:Hx, (largest ys) as [m'|] eqn:Hy.
  - apply largest_spec in Hx as [Hm Hall], Hy as [Hm' Hall'].
    f_equal. apply Qcle_antisym.
    + apply Hall'. by rewrite <- Hp.
    + apply Hall. by rewrite Hp.
  - destruct ys; [|done]. apply Permutation_nil_r in Hp. by subst.
  - destruct xs; [|done]. apply Permutation_nil_l in Hp. by subst.
  - done.
Qed.

Lemma orq_Some_0 v : orq (Some v) 0%Qc = v.
Proof. unfold orq, is_zero. by case_bool_decide. Qed.

(** *** Reading a key after a fold over the candidates *)

Section KeyedFold.
Context {St B V X : Type}.
Context (the_map : St → jsmap V) (step : St → B → St).
Context (filed : B → string → Prop) `{∀ b k, Decision (filed b k)}.
Context (view : V → X) (vstep : option X → B → X).

Hypothesis step_view : ∀ s b k,
  view <$> map_get k (the_map (step s b))
  = if decide (filed b k) then Some (vstep (view <$> map_get k (the_map s)) b)
    else view <$> map_get k (the_map s).

Lemma fold_view books :
  ∀ s k,
    view <$> map_get k (the_map (fold_left step books s))
    = fold_left (λ acc b, Some (vstep acc b)) (filter (λ b, filed b k) books)
                (view <$> map_get k (the_map s)).
Proof.
  induction books as [|b books IH]; intros s k; simpl; [done|].
  rewrite IH, step_view, filter_cons. by destruct (decide (filed b k)).
Qed.

End KeyedFold.

(** *** The extension's script *)

Lemma content_step_view f now m b k :
  plain_metric f →
  f <$> map_get k (Content.dedup_step now m b)
  = if decide (truthy_os (title b) = true ∧ Content.dedupKey b = k)
    then Some (content_vstep f (f <$> map_get k m) b)
    else f <$> map_get k m.
Proof.
  intros Hf. unfold Content.dedup_step.
  destruct (truthy_os (title b)); cbn [negb];
    [|by rewrite decide_False by (by intros [? _])].
  destruct (decide (Content.dedupKey b = k)) as [<-|Hne].
  - rewrite decide_True by done.
    destruct (map_get (Content.dedupKey b) m) as [e|]; rewrite map_get_set, decide_True by done;
      destruct Hf as [->|[->| ->]]; reflexivity.
  - rewrite decide_False by (by intros [_ ?]).
    destruct (map_get (Content.dedupKey b) m); by rewrite map_get_set, decide_False.
Qed.

Lemma content_vstep_fold f g :
  ∀ v, fold_left (λ acc b, Some (content_vstep f acc b)) g (Some (Some v))
       = Some (Some (fold_left Math_max (map (reading f) g) v)).
Proof.
  induction g as [|b g IH]; intros v; [done|].
  cbn [fold_left map]. rewrite <- IH. do 2 f_equal.
  unfold content_vstep. by rewrite orq_Some_0.
Qed.

(** Under a key, a plain metric of the stored record is the largest reading
    among the candidates of the key. *)
Lemma content_metric f now books k :
  plain_metric f →
  f <$> map_get k (Content.bookMap_of now books)
  = Some <$> largest (map (reading f) (content_group k books)).
Proof.
  intros Hf. unfold Content.bookMap_of.
  rewrite (fold_view (λ m, m) (Content.dedup_step now)
             (λ b k, truthy_os (title b) = true ∧ Content.dedupKey b = k)
             f (content_vstep f)) by (intros; by apply content_step_view).
  fold (content_group k books). simpl.
  destruct (content_group k books) as [|b g]; [done|].
  cbn [fold_left map largest fmap option_fmap option_map].
  change (content_vstep f None b) with (Some (reading f b)).
  by rewrite content_vstep_fold.
Qed.

(** *** The advanced script *)

Lemma advanced_step_view f env now st b k :
  plain_metric f →
  f <$> map_get k (Advanced.dedup_step env now st b).1
  = if decide (Advanced.isValidBookData b = true ∧ Advanced.dedupKey b = k)
    then Some (advanced_vstep f (f <$> map_get k st.1) b)
    else f <$> map_get k st.1.
Proof.
  intros Hf. destruct st as [m d]. unfold Advanced.dedup_step. cbn [fst].
  destruct (Advanced.isValidBookData b); cbn [negb];
    [|by rewrite decide_False by (by intros [? _])].
  destruct (decide (Advanced.dedupKey b = k)) as [<-|Hne].
  - rewrite decide_True by done.
    destruct (map_get (Advanced.dedupKey b) m) as [e|]; cbn [fst].
    + rewrite map_get_set, decide_True by done.
      destruct Hf as [->|[->| ->]]; reflexivity.
    + assert (f (Advanced.enhanceBookData env d b).1 = f b) as Hsame.
      { unfold Advanced.enhanceBookData.
        destruct (negb (truthy_os (id b)) && negb (truthy_os (asin b)));
          [destruct (Advanced.fallbackId env d)|];
          destruct Hf as [->|[->| ->]]; reflexivity. }
      destruct (Advanced.enhanceBookData env d b) as [e d']. cbn [fst] in *.
      rewrite map_get_set, decide_True by done. simpl. by rewrite Hsame.
  - rewrite decide_False by (by intros [_ ?]).
    destruct (map_get (Advanced.dedupKey b) m); cbn [fst].
    + by rewrite map_get_set, decide_False.
    + destruct (Advanced.enhanceBookData env d b) as [e d']. cbn [fst].
      by rewrite map_get_set, decide_False.
Qed.

Lemma advanced_vstep_fold f g :
  ∀ v, fold_left (λ acc b, Some (advanced_vstep f acc b)) g (Some (Some v))
       = Some (Some (fold_left Math_max (map (reading f) g) v)).
Proof.
  induction g as [|b g IH]; intros v; [done|].
  cbn [fold_left map]. rewrite <- IH. do 2 f_equal.
  unfold advanced_vstep. by rewrite orq_Some_0.
Qed.

(** Under a key, a plain metric of the stored record is the metric of the
    only candidate of the key, or the largest reading among several. *)
Lemma advanced_metric f env now books k :
  plain_metric f →
  f <$> map_get k (Advanced.bookMap_of env now books).1
  = match advanced_group k books with
    | [] => None
    | [b] => Some (f b)
    | g => Some <$> largest (map (reading f) g)
    end.
Proof.
  intros Hf. unfold Advanced.bookMap_of.
  rewrite (fold_view fst (Advanced.dedup_step env now)
             (λ b k, Advanced.isValidBookData b = true ∧ Advanced.dedupKey b = k)
             f (advanced_vstep f)) by (intros; by apply advanced_step_view).
  fold (advanced_group k books). simpl.
  destruct (advanced_group k books) as [|b [|b' g]]; [done..|].
  cbn [fold_left map largest fmap option_fmap option_map].
  change (advanced_vstep f None b) with (f b).
  change (advanced_vstep f (Some (f b)) b')
    with (Some (Math_max (reading f b) (reading f b'))).
  by rewrite advanced_vstep_fold.
Qed.

(** X5. For candidates whose metrics are numbers or missing, the
    royalties, the sales and the read counts of the canonical records do
    not depend on the order of the candidates, in either script. *)
Theorem plain_metrics_order_independent (books books' : list book)
  (f : book → option num) :
  books ≡ₚ books' → plain_metric f →
  (∀ now k,
     f <$> map_get k (Content.bookMap_of now books)
     = f <$> map_get k (Content.bookMap_of now books'))
  ∧ (∀ env env' now now' k,
       f <$> map_get k (Advanced.bookMap_of env now books).1
       = f <$> map_get k (Advanced.bookMap_of env' now' books').1).
Proof.
  intros Hp Hf. split.
  - intros now k. rewrite !content_metric by done.
    f_equal. apply largest_perm. unfold content_group. by rewrite Hp.
  - intros env env' now now' k. rewrite !advanced_metric by done.
    assert (advanced_group k books ≡ₚ advanced_group k books') as Hg
      by (unfold advanced_group; by rewrite Hp).
    destruct (advanced_group k books) as [|b [|b2 g]] eqn:E.
    + apply Permutation_nil_l in Hg. by rewrite <- Hg.
    + apply Permutation_singleton_l in Hg. by rewrite <- Hg.
    + pose proof (Permutation_length Hg) as Hlen.
      destruct (advanced_group k books') as [|c [|c2 g']]; [done..|].
      f_equal. apply largest_perm. by rewrite Hg.
Qed.

(** C4. The derived royalties do depend on the order. Both scripts derive
    [kenpRoyalties] from [kenpReads] only for the candidate that opens a key;
    a candidate merged into an existing key contributes the royalties it
    carries, so two orders of the same candidates end with different
    [kenpRoyalties]: 0 and 2 for the extension's script, 4 and 1/25 for the
    advanced one. *)
Theorem C4_kenp_royalties_depend_on_order :
  [element_candidate; object_candidate] ≡ₚ [object_candidate; element_candidate]
  ∧ map kenpRoyalties
        (Content.processAndDeduplicateBooks noon [element_candidate; object_candidate])
    = [Some 0%Qc]
  ∧ map kenpRoyalties
        (Content.processAndDeduplicateBooks noon [object_candidate; element_candidate])
    = [Some (of_Z 2)]
  ∧ map kenpRoyalties
        (Advanced.processAndDeduplicateBooks (web_env 7) noon [many_reads; few_reads])
    = [Some (of_Z 4)]
  ∧ map kenpRoyalties
        (Advanced.processAndDeduplicateBooks (web_env 7) noon [few_reads; many_reads])
    = [Some (Q2Qc (1 # 25))].
Proof.
  split; [apply Permutation_swap|].
  repeat split; apply (bool_decide_unpack _); vm_compute; exact I.
Qed.

End MergeOrder.

Section StringFields.
Import Notions.

Lemma ors_truthy s v d : s = Some v → truthy_str v = true → ors s d = v.
Proof. intros -> H. simpl. by rewrite H. Qed.

(** [a || b || d] is the first non-empty of [a] and [b], else [d]. *)
Lemma ors_first_non_empty a b d : ors a (ors b d) = first_non_empty [a; b] d.
Proof.
  destruct a as [v|]; cbn; [destruct (truthy_str v)|];
    destruct b as [w|]; cbn; try destruct (truthy_str w); reflexivity.
Qed.

(** C5, as stated, fails for the storage merge of the background worker:
    the stored record has country US and marketplace amazon.com, both
    non-empty, and the incoming record of the same ASIN overwrites them. *)
Lemma C5_storage_merge_overwrites :
  country stored_book = Some "US"
  ∧ marketplace stored_book = Some "amazon.com"
  ∧ Background.storageKey stored_book = Background.storageKey incoming_book
  ∧ map country (Background.mergeBookData noon [stored_book] [incoming_book])
    = [Some "UK"]
  ∧ map marketplace (Background.mergeBookData noon [stored_book] [incoming_book])
    = [Some "amazon.co.uk"].
Proof. repeat split; vm_compute; reflexivity. Qed.

(** C5, amended. When the extension's content script folds a candidate into
    the record already stored under its key, the ASIN, the marketplace and
    the country of the result are the first non-empty value among the
    existing one and the incoming one (else the default), so a non-empty
    existing value is kept; the source is the existing one. The storage
    merge of the background worker spreads the incoming record over the
    existing one: each of these fields takes the incoming value whenever the
    incoming record carries the property, and keeps the existing value only
    otherwise. *)
Theorem C5_string_field_precedence :
  (∀ now m b existing,
     truthy_os (title b) = true →
     map_get (Content.dedupKey b) m = Some existing →
     map_get (Content.dedupKey b) (Content.dedup_step now m b)
     = Some (Content.merged existing b))
  ∧ (∀ existing b,
       asin (Content.merged existing b)
       = Some (first_non_empty [asin existing; asin b] "")
       ∧ marketplace (Content.merged existing b)
         = Some (first_non_empty [marketplace existing; marketplace b] "amazon.com")
       ∧ country (Content.merged existing b)
         = Some (first_non_empty [country existing; country b] "US")
       ∧ source (Content.merged existing b) = source existing)
  ∧ (∀ existing b v,
       truthy_str v = true →
       (asin existing = Some v → asin (Content.merged existing b) = Some v)
       ∧ (marketplace existing = Some v → marketplace (Content.merged existing b) = Some v)
       ∧ (country existing = Some v → country (Content.merged existing b) = Some v))
  ∧ (∀ now m b key existing,
       Background.storageKey b = Some key →
       map_get key m = Some existing →
       map_get key (Background.merge_step now m b)
       = Some (Background.merged now existing b))
  ∧ (∀ now existing b,
       asin (Background.merged now existing b)
       = match asin b with Some v => Some v | None => asin existing end
       ∧ marketplace (Background.merged now existing b)
         = match marketplace b with Some v => Some v | None => marketplace existing end
       ∧ country (Background.merged now existing b)
         = match country b with Some v => Some v | None => country existing end
       ∧ source (Background.merged now existing b)
         = match source b with Some v => Some v | None => source existing end).
Proof.
  split; [|split; [|split; [|split]]].
  - intros now m b existing Ht Hget. unfold Content.dedup_step.
    rewrite Ht, Hget. simpl. apply map_get_set_eq.
  - intros existing b. simpl. by rewrite !ors_first_non_empty.
  - intros existing b v Hv. simpl.
    repeat split; intros H; f_equal; by apply ors_truthy.
  - intros now m b key existing Hk Hget. unfold Background.merge_step.
    rewrite Hk, Hget. apply map_get_set_eq.
  - intros now existing b. done.
Qed.

Lemma C5_string_field_precedence_witness :
  country stored_book = Some "US"
  ∧ country incoming_book = Some "UK"
  ∧ country (Content.merged stored_book incoming_book) = Some "US".
Proof.
  split; [reflexivity|]. split; [reflexivity|].
  apply (proj1 (proj2 (proj2 C5_string_field_precedence))
           stored_book incoming_book "US"); reflexivity.
Defined.

End StringFields.

Section Reconciler.
Import Notions Dashboard.

Lemma sum_of_from {A} (f : A → num) xs :
  ∀ a, fold_left (λ sum x, (sum + f x)%Qc) xs a = (a + total (map f xs))%Qc.
Proof.
  induction xs as [|x xs IH]; intros a; simpl.
  - by rewrite Qcplus_0_r.
  - by rewrite IH, Qcplus_assoc.
Qed.

(** The [reduce] that starts from 0 is the sum. *)
Lemma sum_of_total {A} (f : A → num) xs : sum_of f xs = total (map f xs).
Proof. unfold sum_of. by rewrite sum_of_from, Qcplus_0_l. Qed.




Lemma total_ones {A} (f : A → num) xs :
  (∀ x, x ∈ xs → f x = 1%Qc) → total (map f xs) = of_nat (List.length xs).
Proof.
  induction xs as [|x xs IH]; intros H; simpl.
  - by rewrite <- Z2Qc_inj_0.
  - rewrite (H x) by left. rewrite IH by (intros y Hy; apply H; by right).
    unfold of_nat. rewrite Nat2Z.inj_succ, <- Z.add_1_l, Z2Qc_inj_add.
    by rewrite Z2Qc_inj_1.
Qed.

Lemma orq_no_units s : no_units s → orq (unitsSold s) 1%Qc = 1%Qc.
Proof. by intros [-> | ->]. Qed.

(** C10. A publishing record whose unit count is missing or zero is
    reported with [unitsSold] 1, and the summary counts it: when no record
    of a dataset has unit data, [totalOrders] is the number of records. *)
Theorem C10_units_default_to_one :
  (∀ ads k, no_units (item k) → c_unitsSold (combine ads k) = 1%Qc)
  ∧ (∀ kdpSyncs adsSyncs,
       (∀ k, k ∈ flatten kdpSyncs → no_units (item k)) →
       List.length (combinedData (processUserData kdpSyncs adsSyncs))
       = List.length (flatten kdpSyncs)
       ∧ totalOrders (summary_of (processUserData kdpSyncs adsSyncs))
         = of_nat (List.length (flatten kdpSyncs))).
Proof.
  split; [intros ads k Hk; by apply orq_no_units|].
  intros kdpSyncs adsSyncs H. cbn [processUserData combinedData summary_of totalOrders].
  split; [by rewrite length_map|].
  rewrite sum_of_total, total_ones; [by rewrite length_map|].
  intros c (k & -> & Hk)%list_elem_of_fmap. by apply orq_no_units, H.
Qed.

Lemma C10_units_default_to_one_witness :
  no_units (sale_of "Empath and Psychic Abilities" (of_Z 10))
  ∧ totalOrders (summary_of (processUserData
                   [one_sync [sale_of "Empath and Psychic Abilities" (of_Z 10);
                              sale_of "The Art of Living Well" (of_Z 4)];
                    one_sync [sale_of "Untitled" 0%Qc]]
                   [one_sync [scenario_ad]]))
    = of_nat 3.
Proof.
  split; [by left|].
  apply (proj2 C10_units_default_to_one
           [one_sync [sale_of "Empath and Psychic Abilities" (of_Z 10);
                      sale_of "The Art of Living Well" (of_Z 4)];
            one_sync [sale_of "Untitled" 0%Qc]]
           [one_sync [scenario_ad]]).
  intros k Hk. simpl in Hk.
  repeat (apply elem_of_cons in Hk as [->|Hk]; [by left|]).
  by apply elem_of_nil in Hk.
Defined.

End Reconciler.

Section MinimumSignal.
Import Notions.

Lemma gt0_positive x : gt0 x = true ↔ positive x.
Proof.
  unfold gt0, positive, gtb. destruct x as [v|].
  - rewrite bool_decide_eq_true. split; [eauto|]. by intros (? & [= <-] & ?).
  - split; [done|]. by intros (? & [=] & _).
Qed.

(** The larger of two values, the first of them positive, is positive. *)
Lemma gt0_max x y : gt0 x = true → gt0 (Some (Math_max (orq x 0%Qc) y)) = true.
Proof.
  intros (v & -> & Hv)%gt0_positive. apply gt0_positive. eexists. split; [done|].
  unfold orq, is_zero. rewrite bool_decide_eq_false_2 by (intros ->; by apply Qclt_not_eq in Hv).
  unfold Math_max, gtb. case_bool_decide as Hy; [|done].
  by etrans.
Qed.

Lemma long_title_non_empty (ot : option string) :
  (2 <? String.length (ors ot ""))%nat = true → ∃ t, ot = Some t ∧ t ≠ "".
Proof.
  intros H%Nat.ltb_lt. destruct ot as [t|]; simpl in H; [|lia].
  exists t. split; [done|]. intros ->. simpl in H. lia.
Qed.

Lemma valid_minimum_signal b : Advanced.isValidBookData b = true → minimum_signal b.
Proof.
  unfold Advanced.isValidBookData, minimum_signal.
  intros [[_ Hlen]%andb_true_iff Hm]%andb_true_iff.
  split; [by apply long_title_non_empty|].
  rewrite <- !gt0_positive. rewrite !orb_true_iff in Hm. tauto.
Qed.

Lemma keeps_minimum_signal b : Content.keeps b = true → minimum_signal b.
Proof.
  unfold Content.keeps, minimum_signal. intros [Hlen Hm]%andb_true_iff.
  split; [by apply long_title_non_empty|].
  rewrite <- !gt0_positive. rewrite !orb_true_iff in Hm. tauto.
Qed.

Lemma enhance_valid env drawn b :
  Advanced.isValidBookData b = true →
  Advanced.isValidBookData (Advanced.enhanceBookData env drawn b).1 = true.
Proof.
  unfold Advanced.enhanceBookData.
  destruct (negb (truthy_os (id b)) && negb (truthy_os (asin b)));
    [destruct (Advanced.fallbackId env drawn)|]; done.
Qed.

Lemma merge_valid now existing b :
  Advanced.isValidBookData existing = true →
  Advanced.isValidBookData (Advanced.mergeBookData now existing b) = true.
Proof.
  unfold Advanced.isValidBookData.
  intros [Ht Hm]%andb_true_iff. cbn [Advanced.mergeBookData title totalRoyalties
    totalSales kenpReads]. rewrite Ht. cbn [andb].
  apply orb_true_iff in Hm as [[H|H]%orb_true_iff|H];
    rewrite (gt0_max _ _ H); by rewrite ?orb_true_r.
Qed.

Lemma advanced_step_valid env now st b :
  Forall (λ c, Advanced.isValidBookData c = true) (map_values st.1) →
  Forall (λ c, Advanced.isValidBookData c = true)
         (map_values (Advanced.dedup_step env now st b).1).
Proof.
  destruct st as [m d]. unfold Advanced.dedup_step. cbn [fst]. intros Hm.
  destruct (Advanced.isValidBookData b) eqn:Hb; cbn [negb]; [|done].
  destruct (map_get (Advanced.dedupKey b) m) as [existing|] eqn:Hget; cbn [fst].
  - apply map_set_values; [|done]. apply merge_valid.
    rewrite Forall_forall in Hm. by eapply Hm, map_get_values.
  - pose proof (enhance_valid env d b Hb) as He.
    destruct (Advanced.enhanceBookData env d b) as [e d']. cbn [fst] in *.
    by apply map_set_values.
Qed.

Lemma advanced_fold_valid env now books :
  ∀ st, Forall (λ c, Advanced.isValidBookData c = true) (map_values st.1) →
        Forall (λ c, Advanced.isValidBookData c = true)
               (map_values (fold_left (Advanced.dedup_step env now) books st).1).
Proof.
  induction books as [|b books IH]; intros st H; simpl; [done|].
  by apply IH, advanced_step_valid.
Qed.

(** C7. A record the validator accepts has a non-empty title and at least
    one of its earnings, units sold and read count above zero, and so has
    every record in the output of either [processAndDeduplicateBooks]. *)
Theorem C7_minimum_signal :
  (∀ b, Advanced.isValidBookData b = true → minimum_signal b)
  ∧ (∀ env now books c,
       c ∈ Advanced.processAndDeduplicateBooks env now books →
       Advanced.isValidBookData c = true ∧ minimum_signal c)
  ∧ (∀ now books c,
       c ∈ Content.processAndDeduplicateBooks now books → minimum_signal c).
Proof.
  split; [exact valid_minimum_signal|]. split.
  - intros env now books c Hc.
    pose proof (advanced_fold_valid env now books ([], 0%nat) (Forall_nil_2 _)) as H.
    rewrite Forall_forall in H. specialize (H c Hc).
    split; [done|]. by apply valid_minimum_signal.
  - intros now books c Hc. unfold Content.processAndDeduplicateBooks in Hc.
    apply list_elem_of_In, filter_In in Hc as [_ Hk].
    by apply keeps_minimum_signal.
Qed.

Lemma C7_minimum_signal_witness :
  Advanced.isValidBookData paperback = true ∧ minimum_signal paperback.
Proof.
  split; [reflexivity|].
  apply (proj1 C7_minimum_signal paperback). reflexivity.
Defined.

End MinimumSignal.

Section FallbackIds.
Import Notions Advanced.

Lemma unhex_hex_digit n : (n < 16)%nat → unhex (hex_digit n) = n.
Proof.
  intros H. do 16 (destruct n as [|n]; [reflexivity|]). lia.
Qed.

Lemma hex_pair_inj h l h' l' :
  (h < 16)%nat → (l < 16)%nat → (h' < 16)%nat → (l' < 16)%nat →
  str [hex_digit h; hex_digit l] = str [hex_digit h'; hex_digit l'] →
  h = h' ∧ l = l'.
Proof.
  intros Hh Hl Hh' Hl' H. unfold str in H. cbn [string_of_list_ascii] in H.
  assert (hex_digit h = hex_digit h' ∧ hex_digit l = hex_digit l') as [H1 H2]
    by (split; congruence).
  apply (f_equal unhex) in H1, H2.
  by rewrite !unhex_hex_digit in H1, H2 by done.
Qed.

Lemma hex_byte_inj a b : hex_byte a = hex_byte b → (a mod 256 = b mod 256)%nat.
Proof.
  unfold hex_byte. cbv zeta.
  pose proof (Nat.mod_upper_bound a 256 ltac:(lia)) as Ha.
  pose proof (Nat.mod_upper_bound b 256 ltac:(lia)) as Hb.
  generalize dependent (a mod 256)%nat. generalize dependent (b mod 256)%nat.
  intros y Hy x Hx H.
  apply hex_pair_inj in H as [Hhi Hlo];
    [|first [apply Nat.Div0.div_lt_upper_bound; lia | apply Nat.mod_upper_bound; lia]..].
  rewrite (Nat.div_mod_eq x 16), (Nat.div_mod_eq y 16).
  by rewrite Hhi, Hlo.
Qed.

Lemma concat_cons (s : string) (ss : list string) :
  String.concat "" (s :: ss) = s +:+ String.concat "" ss.
Proof.
  destruct ss as [|s' ss]; [|done].
  cbn [String.concat]. induction s as [|c s IH]; [done|].
  change (String c s = String c (s +:+ "")). by f_equal.
Qed.

Lemma hex_byte_app b r :
  hex_byte b +:+ r
  = String (hex_digit ((b mod 256) / 16)) (String (hex_digit ((b mod 256) mod 16)) r).
Proof. reflexivity. Qed.

Lemma hex_concat_inj xs :
  ∀ ys, List.length xs = List.length ys →
        String.concat "" (map hex_byte xs) = String.concat "" (map hex_byte ys) →
        map (λ b, b mod 256)%nat xs = map (λ b, b mod 256)%nat ys.
Proof.
  induction xs as [|x xs IH]; intros [|y ys] Hlen H; try done.
  cbn [map] in *. rewrite !concat_cons in H.
  assert (hex_byte x = hex_byte y
          ∧ String.concat "" (map hex_byte xs) = String.concat "" (map hex_byte ys))
    as [Hxy Hrest].
  { rewrite !hex_byte_app in H. injection H as H1 H2 H3.
    split; [|exact H3].
    unfold hex_byte, str. cbv zeta. cbn [string_of_list_ascii].
    f_equal; [exact H1|f_equal; exact H2]. }
  f_equal; [by apply hex_byte_inj|]. apply IH; [|done]. simpl in Hlen. lia.
Qed.

(** Two random identifiers are equal exactly when the eight bytes drawn
    are. *)
Lemma randomId_inj env drawn env' drawn' :
  randomId env drawn = randomId env' drawn'
  ↔ ∀ i, (i < 8)%nat →
         (randomByte env (drawn + i) mod 256 = randomByte env' (drawn' + i) mod 256)%nat.
Proof.
  unfold randomId.
  rewrite <- (map_map (λ i, randomByte env (drawn + i)) hex_byte),
          <- (map_map (λ i, randomByte env' (drawn' + i)) hex_byte).
  split.
  - intros H%hex_concat_inj i Hi; [|by rewrite !length_map].
    rewrite !map_map in H.
    apply (f_equal (λ l, l !! i)) in H.
    by rewrite !list_lookup_fmap, !lookup_seq_lt in H by done; injection H.
  - intros H. apply (f_equal (String.concat "")). rewrite !map_map. apply map_ext_in.
    intros i [_ Hi]%in_seq. unfold hex_byte. cbv zeta. by rewrite H by lia.
Qed.

(** C9, as stated, fails: two successive enhancements of one candidate
    without identifier, in one process, assign different fallback ids. *)
Lemma C9_fallback_id_changes_between_runs :
  unidentified untagged
  ∧ (enhanceBookData (web_env 7) 0 untagged).2 = 8%nat
  ∧ id (enhanceBookData (web_env 7) 0 untagged).1 = Some "0708090a0b0c0d0e"
  ∧ id (enhanceBookData (web_env 7) 8 untagged).1 = Some "0f10111213141516".
Proof. repeat split; vm_compute; reflexivity. Qed.

(** C9, amended. The enhancer leaves a candidate that carries an [id] or an
    ASIN as it is and draws nothing. To any other candidate it assigns a
    fallback id that is read from the random source and does not depend on
    the title or on any other field: with [crypto.getRandomValues] it is
    the hexadecimal rendering of the next eight random bytes, so two runs
    give the same id exactly when they draw the same eight bytes. *)
Theorem C9_fallback_id_from_random_source :
  (∀ env drawn b,
     unidentified b →
     id (enhanceBookData env drawn b).1 = Some (fallbackId env drawn).1
     ∧ (enhanceBookData env drawn b).2 = (fallbackId env drawn).2)
  ∧ (∀ env drawn,
       hasGetRandomValues env = true →
       fallbackId env drawn = (randomId env drawn, (drawn + 8)%nat))
  ∧ (∀ env drawn env' drawn' b b',
       unidentified b → unidentified b' →
       hasGetRandomValues env = true → hasGetRandomValues env' = true →
       (id (enhanceBookData env drawn b).1 = id (enhanceBookData env' drawn' b').1
        ↔ ∀ i, (i < 8)%nat →
               (randomByte env (drawn + i) mod 256
                = randomByte env' (drawn' + i) mod 256)%nat))
  ∧ (∀ env drawn b,
       ¬ unidentified b →
       id (enhanceBookData env drawn b).1 = id b
       ∧ (enhanceBookData env drawn b).2 = drawn).
Proof.
  assert (∀ env drawn b, unidentified b →
            id (enhanceBookData env drawn b).1 = Some (fallbackId env drawn).1
            ∧ (enhanceBookData env drawn b).2 = (fallbackId env drawn).2) as Hfresh.
  { intros env drawn b [Hid Hasin]. unfold enhanceBookData.
    rewrite Hid, Hasin. cbn [negb andb].
    by destruct (fallbackId env drawn). }
  assert (∀ env drawn, hasGetRandomValues env = true →
            fallbackId env drawn = (randomId env drawn, (drawn + 8)%nat)) as Hweb.
  { intros env drawn H. unfold fallbackId. by rewrite H. }
  split; [done|]. split; [done|]. split.
  - intros env drawn env' drawn' b b' Hb Hb' He He'.
    rewrite (proj1 (Hfresh env drawn b Hb)), (proj1 (Hfresh env' drawn' b' Hb')).
    assert (∀ e d, hasGetRandomValues e = true → (fallbackId e d).1 = randomId e d)
      as Hfst by (intros e d H; by rewrite Hweb).
    rewrite !Hfst by done. rewrite <- randomId_inj.
    split; [intros H; congruence|intros H; congruence].
  - intros env drawn b Hn. unfold enhanceBookData.
    destruct (negb (truthy_os (id b)) && negb (truthy_os (asin b))) eqn:E; [|done].
    exfalso. apply Hn. apply andb_true_iff in E as [?%negb_true_iff ?%negb_true_iff].
    by split.
Qed.

Lemma C9_fallback_id_from_random_source_witness :
  unidentified untagged
  ∧ id (enhanceBookData (web_env 7) 0 untagged).1 = Some (fallbackId (web_env 7) 0).1
  ∧ (enhanceBookData (web_env 7) 0 untagged).2 = (fallbackId (web_env 7) 0).2.
Proof.
  split; [by split|].
  apply (proj1 C9_fallback_id_from_random_source (web_env 7) 0%nat untagged).
  by split.
Defined.

End FallbackIds.

Section Titles.
Import Notions.

Lemma truthy_str_true s : truthy_str s = true ↔ s ≠ "".
Proof.
  unfold truthy_str. rewrite negb_true_iff.
  destruct (String.eqb_spec s ""); split; congruence.
Qed.

Lemma some_of_spec p text :
  Content.some_of p text = true ↔ ∃ c, c ∈ chars text ∧ p c = true.
Proof.
  unfold Content.some_of. rewrite existsb_exists.
  split; intros (c & Hc & Hp); exists c; split; try done; by apply list_elem_of_In.
Qed.

Lemma all_of_spec p text :
  Content.all_of p text = true ↔ text ≠ "" ∧ ∀ c, c ∈ chars text → p c = true.
Proof.
  unfold Content.all_of. rewrite andb_true_iff, forallb_forall.
  fold (truthy_str text). rewrite truthy_str_true.
  split; intros [Hne H]; (split; [done|]); intros c Hc; apply H; by apply list_elem_of_In.
Qed.

Lemma letter_not_digit c : is_letter c = true → is_digit c = false.
Proof.
  unfold is_letter, is_upper, is_lower, is_digit, between.
  generalize (code c). intros n.
  rewrite orb_true_iff, !andb_true_iff, andb_false_iff, !Nat.leb_le, !Nat.leb_gt. lia.
Qed.

Lemma letter_not_space c : is_letter c = true → is_space c = false.
Proof.
  unfold is_letter, is_upper, is_lower, is_space, between.
  generalize (code c). intros n.
  rewrite orb_true_iff, !andb_true_iff, orb_false_iff, andb_false_iff,
    !Nat.leb_le, !Nat.leb_gt, Nat.eqb_neq. lia.
Qed.

(** A text with a letter is neither digits only nor symbols only. *)
Lemma letter_excludes text :
  has_letter text →
  Content.all_of is_digit text = false
  ∧ Content.all_of (λ c, negb (is_letter c || is_digit c || is_space c)) text = false.
Proof.
  intros (c & Hc & Hl). split; apply not_true_iff_false; intros [_ H]%all_of_spec.
  - specialize (H c Hc). by rewrite (letter_not_digit c Hl) in H.
  - specialize (H c Hc). by rewrite Hl in H.
Qed.

Lemma short_not_empty text : (3 ≤ String.length text)%nat → text ≠ "".
Proof. intros H ->. simpl in H. lia. Qed.

Lemma content_title_spec text : Content.isLikelyBookTitle text = true ↔ content_title text.
Proof.
  unfold Content.isLikelyBookTitle, content_title.
  destruct (negb (truthy_str text) || (String.length text <? 3)%nat
            || (200 <? String.length text)%nat) eqn:Hlen.
  - split; [done|]. intros ([H3 H200] & _). exfalso.
    apply orb_true_iff in Hlen as [[H|H%Nat.ltb_lt]%orb_true_iff|H%Nat.ltb_lt]; [|lia..].
    apply negb_true_iff, not_true_iff_false in H. apply H, truthy_str_true.
    by apply short_not_empty.
  - apply orb_false_iff in Hlen as [[_ H3%Nat.ltb_ge]%orb_false_iff H200%Nat.ltb_ge].
    destruct (existsb (λ keyword, includes (toLowerCase text) keyword) Content.uiKeywords)
      eqn:Hkw.
    + split; [done|]. intros (_ & _ & _ & Hn & _). exfalso. apply Hn.
      apply existsb_exists in Hkw as (k & Hk & Hinc). exists k.
      split; [by apply list_elem_of_In|done].
    + rewrite !andb_true_iff, some_of_spec, all_of_spec, orb_true_iff, negb_true_iff,
        Nat.ltb_lt.
      fold (has_letter text). fold (only_valid_chars text).
      assert (¬ names_ui_keyword text) as Hnk.
      { intros (k & Hk & Hinc). apply not_true_iff_false in Hkw. apply Hkw.
        apply existsb_exists. exists k. split; [by apply list_elem_of_In|done]. }
      assert (String.eqb text (toUpperCase text) = false
              ∨ (String.length text < 20)%nat
              ↔ (all_uppercase text → (String.length text < 20)%nat)) as Hcaps.
      { unfold all_uppercase. destruct (String.eqb_spec text (toUpperCase text)) as [He|He].
        - split; [intros [?|?] _; [done|done]|intros H; right; apply H; congruence].
        - split; [intros _ Hu; congruence|by left]. }
      rewrite Hcaps. split.
      * intros ((((Hl & Hc) & _) & _) & _ & Hv). repeat split; try done; lia.
      * intros (_ & Hl & Hv & _ & Hc).
        destruct (letter_excludes text Hl) as [-> ->].
        repeat split; try done. by apply short_not_empty.
Qed.

Lemma advanced_title_spec text :
  Advanced.isLikelyBookTitle text = true ↔ advanced_title text.
Proof.
  unfold Advanced.isLikelyBookTitle, advanced_title.
  destruct (negb (truthy_str text) || (String.length text <? 3)%nat
            || (300 <? String.length text)%nat) eqn:Hlen.
  - split; [done|]. intros ([H3 H300] & _). exfalso.
    apply orb_true_iff in Hlen as [[H|H%Nat.ltb_lt]%orb_true_iff|H%Nat.ltb_lt]; [|lia..].
    apply negb_true_iff, not_true_iff_false in H. apply H, truthy_str_true.
    by apply short_not_empty.
  - apply orb_false_iff in Hlen as [[_ H3%Nat.ltb_ge]%orb_false_iff H300%Nat.ltb_ge].
    destruct (existsb (λ keyword, String.eqb (toLowerCase text) keyword) Advanced.uiKeywords)
      eqn:Hkw.
    + split; [done|]. intros (_ & _ & _ & Hn). exfalso. apply Hn.
      apply existsb_exists in Hkw as (k & Hk & Heq%String.eqb_eq).
      unfold is_ui_keyword. rewrite Heq. by apply list_elem_of_In.
    + rewrite !andb_true_iff, some_of_spec, all_of_spec.
      fold (has_letter text). fold (only_valid_chars text).
      assert (¬ is_ui_keyword text) as Hnk.
      { intros Hk. apply not_true_iff_false in Hkw. apply Hkw.
        apply existsb_exists. exists (toLowerCase text).
        split; [by apply list_elem_of_In|apply String.eqb_refl]. }
      split.
      * intros ((Hl & _) & _ & Hv). repeat split; try done; lia.
      * intros (_ & Hl & Hv & _).
        destruct (letter_excludes text Hl) as [-> _].
        repeat split; try done. by apply short_not_empty.
Qed.

(** C8, as stated, fails for either classifier. The advanced script accepts
    a title of forty characters that is all upper case, and a title that
    contains words of the blocklist; the extension's script rejects a title
    of 250 letters that names no word of the blocklist and is not all upper
    case. *)
Lemma C8_classifiers_differ_from_claim :
  (Advanced.isLikelyBookTitle shouting = true
   ∧ toUpperCase shouting = shouting
   ∧ String.length shouting = 40%nat)
  ∧ (Advanced.isLikelyBookTitle "Total Sales Report" = true
     ∧ includes (toLowerCase "Total Sales Report") "report" = true)
  ∧ (Content.isLikelyBookTitle long_title = false
     ∧ String.length long_title = 250%nat
     ∧ forallb is_letter (chars long_title) = true
     ∧ existsb (λ keyword, includes (toLowerCase long_title) keyword) Content.uiKeywords
       = false
     ∧ String.eqb long_title (toUpperCase long_title) = false).
Proof. repeat split; vm_compute; reflexivity. Qed.

(** C8, amended. The extension's classifier accepts a string exactly when
    its length lies in [3,200], it has a letter, it contains only the
    allowed characters, no word of its blocklist occurs in the lower-cased
    text, and it is not all upper case unless shorter than 20 characters.
    The advanced script's classifier accepts a string exactly when its
    length lies in [3,300], it has a letter, it contains only the allowed
    characters and its lower-cased text is not itself a word of its
    blocklist; it has no rule on upper case. *)
Theorem C8_title_classifiers :
  (∀ text, Content.isLikelyBookTitle text = true ↔ content_title text)
  ∧ (∀ text, Advanced.isLikelyBookTitle text = true ↔ advanced_title text).
Proof. split; [exact content_title_spec|exact advanced_title_spec]. Qed.

End Titles.

(** ** Further properties of the sources *)

Section RowRecords.
Import Content Notions.

Lemma row_cell_keeps_kenp v cell v' :
  row_cell v cell = Ok v' →
  r_kenpReads v' = r_kenpReads v ∧ r_kenpRoyalties v' = r_kenpRoyalties v.
Proof.
  unfold row_cell. cbv zeta.
  match goal with
  | |- context [if ?c then RowVars _ _ _ _ _ _ _ else v] => destruct c
  end;
    (destruct (includes (trim cell) "KENP" || _);
     [destruct (first_digits (chars (trim cell))); [done|]|];
     simpl; intros [= <-]; by simpl).
Qed.

Lemma row_loop_keeps_kenp cells :
  ∀ v v', forEach row_cell cells v = Ok v' →
          r_kenpReads v' = r_kenpReads v ∧ r_kenpRoyalties v' = r_kenpRoyalties v.
Proof.
  induction cells as [|c cells IH]; intros v v'; simpl; [by intros [= <-]|].
  destruct (row_cell v c) as [v1|e] eqn:Hc; simpl; [|done].
  intros H. apply IH in H as [-> ->]. by apply row_cell_keeps_kenp in Hc.
Qed.

(** X1. The only exception of [extractBookDataFromRow] is the
    [ReferenceError] of the KENP block, and it is thrown exactly when some
    cell of the row contains KENP, or is an integer of three digits or more
    above 100, and has a digit; on every other row the function returns. *)
Theorem row_extractor_throws_exactly (cells : list string) (source now : string) :
  (extractBookDataFromRow cells source now = Throw ReferenceError
   ↔ existsb kenp_block_reads cells = true)
  ∧ (existsb kenp_block_reads cells = false
     ↔ ∃ r, extractBookDataFromRow cells source now = Ok r)
  ∧ (∀ e, extractBookDataFromRow cells source now = Throw e → e = ReferenceError).
Proof.
  split; [apply extractBookDataFromRow_throws_iff|]. split; [split|].
  - intros He. unfold extractBookDataFromRow.
    destruct (row_loop_returns cells row_init He) as [v ->]. simpl.
    destruct (truthy_str (r_title v) && _); eauto.
  - intros [r Hr]. apply not_true_iff_false. intros He.
    apply (extractBookDataFromRow_throws_iff cells source now) in He. congruence.
  - intros e H. destruct (existsb kenp_block_reads cells) eqn:He.
    + apply (extractBookDataFromRow_throws_iff cells source now) in He. congruence.
    + unfold extractBookDataFromRow in H.
      destruct (row_loop_returns cells row_init He) as [v Hv]. rewrite Hv in H.
      simpl in H. by destruct (truthy_str (r_title v) && _).
Qed.

(** X2. A record that [extractBookDataFromRow] returns carries no KENP data:
    its [kenpReads] and [kenpRoyalties] are 0, since every row that would
    set them throws. Its title is not empty and its royalties or its sales
    are above zero. *)
Theorem row_record_has_no_kenp (cells : list string) (source now : string) (b : book) :
  extractBookDataFromRow cells source now = Ok (Some b) →
  kenpReads b = Some 0%Qc ∧ kenpRoyalties b = Some 0%Qc
  ∧ truthy_os (title b) = true
  ∧ (positive (totalRoyalties b) ∨ positive (totalSales b)).
Proof.
  unfold extractBookDataFromRow.
  destruct (forEach row_cell cells row_init) as [v|e] eqn:Hv; simpl; [|done].
  apply row_loop_keeps_kenp in Hv as [Hr Hk]. simpl in Hr, Hk. rewrite Hr, Hk.
  change (gtb 0%Qc 0%Qc) with false. cbn [andb orb].
  destruct (truthy_str (r_title v)) eqn:Ht; [|done].
  destruct (gtb (r_revenue v) 0%Qc) eqn:Hrev; cbn [andb orb].
  - intros [= <-]. cbn. repeat split; try done.
    left. eexists. split; [done|]. by apply bool_decide_eq_true in Hrev.
  - rewrite orb_false_r. destruct (gtb (r_sales v) 0%Qc) eqn:Hs; [|done].
    intros [= <-]. cbn. repeat split; try done.
    right. eexists. split; [done|]. by apply bool_decide_eq_true in Hs.
Qed.

Lemma row_record_has_no_kenp_witness :
  ∃ b, extractBookDataFromRow ["The Art of Living Well "; "$1,234.50"; "42"]
         "table_0_row_1" noon = Ok (Some b)
       ∧ kenpReads b = Some 0%Qc ∧ kenpRoyalties b = Some 0%Qc.
Proof.
  destruct (extractBookDataFromRow ["The Art of Living Well "; "$1,234.50"; "42"]
              "table_0_row_1" noon) as [[b|]|e] eqn:E.
  - exists b. split; [done|].
    destruct (row_record_has_no_kenp _ _ _ _ E) as (? & ? & _). by split.
  - vm_compute in E. discriminate.
  - vm_compute in E. discriminate.
Defined.

End RowRecords.

Section Countries.
Import Notions.

Lemma starts_with_app p q l : starts_with (p ++ q) l = true → starts_with p l = true.
Proof.
  revert l. induction p as [|a p IH]; intros [|b l]; simpl; try done.
  intros [-> H]%andb_true_iff. simpl. by apply IH.
Qed.

Lemma infix_of_app p q l : infix_of (p ++ q) l = true → infix_of p l = true.
Proof.
  induction l as [|b l IH]; simpl.
  - rewrite !orb_false_r. apply starts_with_app.
  - intros [H|H]%orb_true_iff; apply orb_true_iff.
    + left. by eapply starts_with_app.
    + right. by apply IH.
Qed.

(** A text that includes [p ++ q] includes [p]. *)
Lemma includes_longer s p q :
  includes s (p +:+ q) = true → includes s p = true.
Proof.
  unfold includes, chars. intros H. apply (infix_of_app _ (list_ascii_of_string q)).
  revert H. assert (list_ascii_of_string (p +:+ q)
                    = list_ascii_of_string p ++ list_ascii_of_string q) as ->; [|done].
  induction p as [|c p IH]; [done|].
  change (list_ascii_of_string (String c (p +:+ q))
          = c :: (list_ascii_of_string p ++ list_ascii_of_string q)).
  simpl. by rewrite IH.
Qed.

Ltac not_listed :=
  let H := fresh in
  intros H; repeat (apply elem_of_cons in H as [H|H]; [discriminate|]);
  by apply elem_of_nil in H.

(** X3. The country tables are read first match first, and the entries for
    Australia, Brazil and Mexico come after the [.com] entry their domains
    contain: [extractCountryFromMarketplace] answers US for every
    marketplace that contains [.com] and never AU, BR or MX, and
    [extractCountryCode] answers US for every text that contains
    [amazon.com] and never AU. *)
Theorem country_tables_shadowed :
  (∀ m, includes m ".com" = true → Content.extractCountryFromMarketplace m = "US")
  ∧ (∀ m, Content.extractCountryFromMarketplace m ∉ ["AU"; "BR"; "MX"])
  ∧ (∀ text, includes text "amazon.com" = true → Advanced.extractCountryCode text = "US")
  ∧ (∀ text, Advanced.extractCountryCode text ≠ "AU").
Proof.
  split; [|split; [|split]].
  - intros m H. unfold Content.extractCountryFromMarketplace. simpl. by rewrite H.
  - intros m. unfold Content.extractCountryFromMarketplace. simpl.
    destruct (includes m ".com") eqn:Hcom; [not_listed|].
    assert (∀ q, includes m (".com" +:+ q) = false) as Hno.
    { intros q. apply not_true_iff_false. intros H%includes_longer. congruence. }
    rewrite (Hno ".au" : includes m ".com.au" = false),
            (Hno ".br" : includes m ".com.br" = false),
            (Hno ".mx" : includes m ".com.mx" = false).
    repeat (match goal with |- context [if ?c then _ else _] => destruct c end;
            [not_listed|]).
    not_listed.
  - intros text H. unfold Advanced.extractCountryCode. simpl. by rewrite H.
  - intros text. unfold Advanced.extractCountryCode. simpl.
    destruct (includes text "amazon.com") eqn:Hcom; [done|].
    assert (includes text "amazon.com.au" = false) as Hno.
    { apply not_true_iff_false. intros H.
      apply (includes_longer text "amazon.com" ".au") in H. congruence. }
    rewrite Hno.
    repeat (match goal with |- context [if ?c then _ else _] => destruct c end;
            [done|]).
    done.
Qed.

End Countries.

Section StoredSyncs.
Import Dashboard.

Lemma slice_last_short {A} cap (l : list A) :
  (List.length l ≤ cap)%nat → slice_last cap l = l.
Proof.
  unfold slice_last. intros H. destruct (cap =? 0)%nat; [done|].
  by replace (List.length l - cap)%nat with 0%nat by lia.
Qed.

Lemma slice_last_length {A} cap (l : list A) :
  (0 < cap)%nat → (List.length (slice_last cap l) ≤ cap)%nat.
Proof.
  unfold slice_last. intros H. destruct (Nat.eqb_spec cap 0); [lia|].
  rewrite length_drop. lia.
Qed.

Lemma store_sync_slice {A} cap (entries : list A) entry :
  store_sync cap entries entry = slice_last cap (entries ++ [entry]).
Proof.
  unfold store_sync. cbv zeta.
  destruct (Nat.ltb_spec cap (List.length (entries ++ [entry]))); [done|].
  by rewrite slice_last_short.
Qed.

Lemma slice_last_app {A} cap (l es : list A) :
  (0 < cap)%nat → slice_last cap (slice_last cap l ++ es) = slice_last cap (l ++ es).
Proof.
  intros Hcap. unfold slice_last. destruct (Nat.eqb_spec cap 0); [lia|].
  rewrite !length_app, length_drop.
  rewrite <- (drop_app_le l es (List.length l - cap)) by lia.
  rewrite drop_drop. f_equal. lia.
Qed.

Lemma store_sync_fold {A} cap (es : list A) :
  (0 < cap)%nat →
  ∀ init, fold_left (store_sync cap) es (slice_last cap init) = slice_last cap (init ++ es).
Proof.
  intros Hcap. induction es as [|e es IH]; intros init; simpl.
  - by rewrite app_nil_r.
  - rewrite store_sync_slice, slice_last_app by done.
    rewrite IH. by rewrite <- app_assoc.
Qed.

(** X4. The list the sync handler stores syncs in never grows beyond its
    cap: after any sequence of syncs it holds exactly the last [cap] of
    them, in order, so older syncs are forgotten. *)
Theorem stored_syncs_are_the_last {A} (cap : nat) (syncs : list A) :
  (0 < cap)%nat →
  fold_left (store_sync cap) syncs [] = drop (List.length syncs - cap) syncs
  ∧ (List.length (fold_left (store_sync cap) syncs []) ≤ cap)%nat.
Proof.
  intros Hcap.
  pose proof (store_sync_fold cap syncs Hcap []) as H.
  rewrite (slice_last_short cap []) in H by (simpl; lia). simpl in H.
  rewrite H. split; [|by apply slice_last_length].
  unfold slice_last. destruct (Nat.eqb_spec cap 0); [lia|done].
Qed.

Lemma stored_syncs_are_the_last_witness :
  (0 < 100)%nat
  ∧ fold_left (store_sync 100) (seq 0 105) [] = seq 5 100.
Proof.
  split; [lia|].
  rewrite (proj1 (stored_syncs_are_the_last 100 (seq 0 105) ltac:(lia))).
  reflexivity.
Defined.

End StoredSyncs.

Section CanonicalRecords.
Import Notions.

Lemma plain_metrics_order_independent_witness :
  [element_candidate; object_candidate] ≡ₚ [object_candidate; element_candidate]
  ∧ plain_metric kenpReads
  ∧ ∀ now k,
      kenpReads <$> map_get k (Content.bookMap_of now [element_candidate; object_candidate])
      = kenpReads <$> map_get k (Content.bookMap_of now [object_candidate; element_candidate]).
Proof.
  split; [apply Permutation_swap|]. split; [by right; right|].
  apply (plain_metrics_order_independent
           [element_candidate; object_candidate] [object_candidate; element_candidate]
           kenpReads); [apply Permutation_swap|by right; right].
Defined.

(** *** A second pass of the extension's script *)

Lemma map_set_absent {V} (m : jsmap V) k v : k ∉ keys m → map_set k v m = m ++ [(k, v)].
Proof.
  induction m as [|[k' v'] m IH]; intros H; [done|].
  cbn [keys map fst] in H. apply not_elem_of_cons in H as [Hne H].
  cbn [map_set]. destruct (String.eqb_spec k k') as [->|_]; [done|].
  simpl. f_equal. by apply IH.
Qed.

Lemma map_set_entries {V} (P : string * V → Prop) (m : jsmap V) k v :
  P (k, v) → Forall P m → Forall P (map_set k v m).
Proof.
  intros Hv. induction m as [|[k' v'] m IH]; simpl; intros H.
  - by constructor.
  - apply Forall_cons in H as [Hv' H].
    destruct (String.eqb k k'); constructor; auto.
Qed.

Lemma map_get_entry {V} (m : jsmap V) k v : map_get k m = Some v → (k, v) ∈ m.
Proof.
  induction m as [|[k' v'] m IH]; simpl; [done|].
  destruct (String.eqb_spec k k') as [->|_]; [intros [= ->]; left|intros H; right; auto].
Qed.

Lemma ors_default_truthy s d : truthy_str d = true → truthy_str (ors s d) = true.
Proof.
  intros Hd. destruct s as [v|]; simpl; [|done].
  by destruct (truthy_str v) eqn:E.
Qed.

Lemma ors_of_truthy s d : truthy_os s = true → Some (ors s d) = s.
Proof.
  destruct s as [v|]; simpl; [|done]. by intros ->.
Qed.

Lemma content_step_entries now m b :
  Forall content_entry m → Forall content_entry (Content.dedup_step now m b).
Proof.
  intros Hm. unfold Content.dedup_step.
  destruct (truthy_os (title b)) eqn:Ht; cbn [negb]; [|done].
  destruct (map_get (Content.dedupKey b) m) as [e|] eqn:Hget.
  - apply map_set_entries; [|done].
    rewrite Forall_forall in Hm. destruct (Hm _ (map_get_entry _ _ _ Hget))
      as (Hte & Hke & Hse). cbn [fst snd] in *.
    split; [done|]. split; [done|].
    destruct Hse as (_ & _ & _ & _ & Hm' & Hc & Hs).
    unfold settled. cbn [snd Content.merged asin totalRoyalties totalSales kenpReads
                          marketplace country source].
    rewrite (ors_of_truthy (marketplace e)), (ors_of_truthy (country e)) by done.
    by repeat split.
  - apply map_set_entries; [|done].
    split; [done|]. split; [done|].
    unfold settled. cbn [snd Content.added asin totalRoyalties totalSales kenpReads
                          marketplace country source truthy_os].
    rewrite !ors_default_truthy by done. by repeat split.
Qed.

Lemma content_fold_entries now books :
  ∀ m, Forall content_entry m →
       Forall content_entry (fold_left (Content.dedup_step now) books m).
Proof.
  induction books as [|b books IH]; intros m H; simpl; [done|].
  by apply IH, content_step_entries.
Qed.

(** Records filed under keys of their own, all different, open one key
    each. *)
Lemma content_second_pass now es :
  ∀ acc, Forall content_entry es → NoDup (keys acc ++ keys es) →
         fold_left (Content.dedup_step now) (map snd es) acc
         = acc ++ map (λ e, (e.1, Content.added e.2 now)) es.
Proof.
  induction es as [|[k v] es IH]; intros acc Hes Hnd; simpl.
  - by rewrite app_nil_r.
  - apply Forall_cons in Hes as [(Ht & Hk & _) Hes]. cbn [fst snd] in *.
    assert (k ∉ keys acc) as Hfresh.
    { apply NoDup_app in Hnd as (_ & Hdisj & _). intros Hin.
      apply (Hdisj k Hin). left. }
    unfold Content.dedup_step at 2. rewrite Ht, Hk. cbn [negb].
    rewrite (proj2 (map_get_None acc k) Hfresh), map_set_absent by done.
    rewrite IH; [by rewrite <- app_assoc|done|].
    unfold keys. rewrite map_app. cbn [map fst]. rewrite <- app_assoc. done.
Qed.

Lemma gt0_orq x : gt0 (Some (orq x 0%Qc)) = gt0 x.
Proof. destruct x as [v|]; [by rewrite orq_Some_0|done]. Qed.

Lemma keeps_added c now : Content.keeps (Content.added c now) = Content.keeps c.
Proof.
  unfold Content.keeps. cbn [Content.added title totalRoyalties totalSales kenpReads].
  by rewrite !gt0_orq.
Qed.

Lemma added_settled c now : settled c → same_but_derived c (Content.added c now).
Proof.
  intros ([a Ha] & [r Hr] & [s Hs] & [k Hk] & Hm & Hc & Hso).
  unfold same_but_derived.
  cbn [Content.added title asin totalRoyalties totalSales kenpReads
       marketplace country source].
  rewrite (ors_of_truthy (marketplace c)), (ors_of_truthy (country c)),
    (ors_of_truthy (source c)) by done.
  rewrite Hr, Hs, Hk, !orq_Some_0, Ha.
  repeat split. simpl. unfold truthy_str.
  destruct (String.eqb_spec a "") as [->|_]; reflexivity.
Qed.

Lemma filter_entries (m : jsmap book) :
  List.filter Content.keeps (map snd m)
  = map snd (List.filter (λ e, Content.keeps e.2) m).
Proof.
  induction m as [|[k v] m IH]; simpl; [done|].
  destruct (Content.keeps v); simpl; by rewrite IH.
Qed.

(** X6. For candidates whose metrics are numbers or missing, running the
    extension's [processAndDeduplicateBooks] on its own output merges
    nothing and drops nothing: the records of the output have
    keys that are all different, and the second pass returns each of them
    as if it opened its key, with the same title, ASIN, royalties, sales,
    read count, marketplace, country and source. Only the royalties derived
    from the read count and an empty time of extraction are filled in
    again. *)
Theorem second_pass_keeps_records (now now' : string) (books : list book) :
  NoDup (map Content.dedupKey (Content.processAndDeduplicateBooks now books))
  ∧ Content.processAndDeduplicateBooks now' (Content.processAndDeduplicateBooks now books)
    = map (λ c, Content.added c now') (Content.processAndDeduplicateBooks now books)
  ∧ Forall (λ c, same_but_derived c (Content.added c now'))
           (Content.processAndDeduplicateBooks now books).
Proof.
  pose proof (content_fold_entries now books [] (Forall_nil_2 _)) as Hent.
  destruct (content_fold_keys now books []) as [Hnd _]; [apply NoDup_nil_2|].
  fold (Content.bookMap_of now books) in Hent, Hnd.
  unfold Content.processAndDeduplicateBooks at 1 3 4 5. unfold map_values.
  rewrite filter_entries.
  set (es := List.filter (λ e, Content.keeps e.2) (Content.bookMap_of now books)).
  assert (Forall content_entry es) as Hes.
  { apply Forall_forall. intros e He. subst es.
    apply list_elem_of_In, filter_In in He as [He _].
    rewrite Forall_forall in Hent. by apply Hent, list_elem_of_In. }
  assert (map Content.dedupKey (map snd es) = keys es) as Hkeys.
  { unfold keys. rewrite map_map. apply map_ext_in.
    intros e He%list_elem_of_In. rewrite Forall_forall in Hes.
    by destruct (Hes e He) as (_ & ? & _). }
  assert (NoDup (keys es)) as Hnd'.
  { subst es. unfold keys. clear -Hnd. unfold keys in Hnd.
    induction (Content.bookMap_of now books) as [|[k v] m IH]; simpl; [done|].
    cbn [map fst] in Hnd. apply NoDup_cons in Hnd as [Hk Hnd].
    destruct (Content.keeps v); simpl; [|by apply IH].
    apply NoDup_cons. split; [|by apply IH].
    intros Hin. apply Hk. apply list_elem_of_fmap in Hin as (e & -> & He).
    apply list_elem_of_In, filter_In in He as [He _].
    apply list_elem_of_fmap. exists e. split; [done|by apply list_elem_of_In]. }
  split; [by rewrite Hkeys|]. split.
  - unfold Content.processAndDeduplicateBooks, Content.bookMap_of, map_values.
    rewrite (content_second_pass now' es []) by done. cbn [app].
    rewrite !map_map. cbn [snd].
    assert (∀ l : list (string * book),
              Forall (λ e, Content.keeps e.2 = true) l →
              List.filter Content.keeps (map (λ e, Content.added e.2 now') l)
              = map (λ e, Content.added e.2 now') l) as Hall.
    { induction l as [|e l IH]; intros Hl; simpl; [done|].
      apply Forall_cons in Hl as [He Hl]. rewrite keeps_added, He. by rewrite IH. }
    apply Hall. apply Forall_forall. intros e He. subst es.
    by apply list_elem_of_In, filter_In in He as [_ He].
  - apply Forall_forall. intros c (e & -> & He)%list_elem_of_fmap.
    rewrite Forall_forall in Hes. destruct (Hes e He) as (_ & _ & Hs).
    by apply added_settled.
Qed.

(** *** Further candidates *)

Lemma improves_refl c : improves c c.
Proof. unfold improves. repeat split; apply Qcle_refl. Qed.

Lemma improves_trans a b c : improves a b → improves b c → improves a c.
Proof.
  intros (Ht & H1 & H2 & H3 & H4) (Ht' & H1' & H2' & H3' & H4').
  unfold improves. repeat split; [congruence|by etrans..].
Qed.

Lemma content_merged_improves c b : improves c (Content.merged c b).
Proof.
  unfold improves, reading.
  cbn [Content.merged title totalRoyalties totalSales kenpReads kenpRoyalties].
  rewrite !orq_Some_0. repeat split; apply Math_max_l.
Qed.

Lemma advanced_merged_improves now c b : improves c (Advanced.mergeBookData now c b).
Proof.
  unfold improves, reading.
  cbn [Advanced.mergeBookData title totalRoyalties totalSales kenpReads kenpRoyalties].
  rewrite !orq_Some_0. repeat split; apply Math_max_l.
Qed.

Lemma content_step_improves now m b k c :
  map_get k m = Some c →
  ∃ c', map_get k (Content.dedup_step now m b) = Some c' ∧ improves c c'.
Proof.
  intros Hk. unfold Content.dedup_step.
  destruct (truthy_os (title b)); cbn [negb]; [|eauto using improves_refl].
  destruct (decide (Content.dedupKey b = k)) as [->|Hne].
  - rewrite Hk, map_get_set_eq. eauto using content_merged_improves.
  - destruct (map_get (Content.dedupKey b) m);
      rewrite map_get_set_ne by done; eauto using improves_refl.
Qed.

Lemma advanced_step_improves env now st b k c :
  map_get k st.1 = Some c →
  ∃ c', map_get k (Advanced.dedup_step env now st b).1 = Some c' ∧ improves c c'.
Proof.
  destruct st as [m d]. cbn [fst]. intros Hk. unfold Advanced.dedup_step.
  destruct (Advanced.isValidBookData b); cbn [negb fst]; [|eauto using improves_refl].
  destruct (decide (Advanced.dedupKey b = k)) as [->|Hne].
  - rewrite Hk. cbn [fst]. rewrite map_get_set_eq. eauto using advanced_merged_improves.
  - destruct (map_get (Advanced.dedupKey b) m);
      [|destruct (Advanced.enhanceBookData env d b)]; cbn [fst];
      rewrite map_get_set_ne by done; eauto using improves_refl.
Qed.

Lemma content_fold_improves now more :
  ∀ m k c, map_get k m = Some c →
    ∃ c', map_get k (fold_left (Content.dedup_step now) more m) = Some c' ∧ improves c c'.
Proof.
  induction more as [|b more IH]; intros m k c Hk; simpl; [eauto using improves_refl|].
  destruct (content_step_improves now m b k c Hk) as (c1 & H1 & Hi1).
  destruct (IH _ _ _ H1) as (c2 & H2 & Hi2). eauto using improves_trans.
Qed.

Lemma advanced_fold_improves env now more :
  ∀ st k c, map_get k st.1 = Some c →
    ∃ c', map_get k (fold_left (Advanced.dedup_step env now) more st).1 = Some c'
          ∧ improves c c'.
Proof.
  induction more as [|b more IH]; intros st k c Hk; simpl; [eauto using improves_refl|].
  destruct (advanced_step_improves env now st b k c Hk) as (c1 & H1 & Hi1).
  destruct (IH _ _ _ H1) as (c2 & H2 & Hi2). eauto using improves_trans.
Qed.

(** X7. For candidates whose metrics are numbers or missing, further
    candidates never take a record away and never lower it, in either
    script: a key that holds a record after [books] still holds one
    after [books ++ more], with the same title and with royalties, sales,
    read count and read royalties that are at least what they were. *)
Theorem further_candidates_only_improve
  (env : Advanced.environment) (now : string) (books more : list book)
  (k : string) (c : book) :
  (map_get k (Content.bookMap_of now books) = Some c →
   ∃ c', map_get k (Content.bookMap_of now (books ++ more)) = Some c' ∧ improves c c')
  ∧ (map_get k (Advanced.bookMap_of env now books).1 = Some c →
     ∃ c', map_get k (Advanced.bookMap_of env now (books ++ more)).1 = Some c'
           ∧ improves c c').
Proof.
  unfold Content.bookMap_of, Advanced.bookMap_of. rewrite !fold_left_app. split.
  - apply content_fold_improves.
  - apply advanced_fold_improves.
Qed.

(** *** Identifiers of the advanced script *)

Lemma fallbackId_non_empty env drawn :
  truthy_str (Advanced.fallbackId env drawn).1 = true.
Proof.
  unfold Advanced.fallbackId. destruct (Advanced.hasGetRandomValues env); cbn [fst].
  - unfold Advanced.randomId. change (seq 0 8) with (0 :: seq 1 7)%nat.
    cbn [map]. by rewrite concat_cons, hex_byte_app.
  - reflexivity.
Qed.

Lemma enhance_identified env drawn b :
  identified (Advanced.enhanceBookData env drawn b).1.
Proof.
  unfold Advanced.enhanceBookData, identified.
  pose proof (fallbackId_non_empty env drawn) as Hf.
  destruct (truthy_os (id b)) eqn:Hi; destruct (truthy_os (asin b)) eqn:Ha;
    cbn [negb andb]; [..|destruct (Advanced.fallbackId env drawn) as [i d]];
    cbn [fst id asin country truthy_os] in *;
    (split; [tauto|]); by destruct (truthy_os (country b)) eqn:Hc.
Qed.

Lemma merge_identified now existing b :
  identified existing → identified (Advanced.mergeBookData now existing b).
Proof.
  unfold identified, Advanced.oro. cbn [Advanced.mergeBookData id asin country].
  intros [Hid Hc]. unfold Advanced.oro. rewrite Hc. split; [|done].
  destruct Hid as [Hi|Ha]; [by left|right]. by rewrite Ha.
Qed.

Lemma advanced_step_identified env now st b :
  Forall identified (map_values st.1) →
  Forall identified (map_values (Advanced.dedup_step env now st b).1).
Proof.
  destruct st as [m d]. unfold Advanced.dedup_step. cbn [fst]. intros Hm.
  destruct (Advanced.isValidBookData b); cbn [negb]; [|done].
  destruct (map_get (Advanced.dedupKey b) m) as [e|] eqn:Hget.
  - cbn [fst]. apply map_set_values; [|done]. apply merge_identified.
    rewrite Forall_forall in Hm. by apply Hm, (map_get_values _ (Advanced.dedupKey b)).
  - pose proof (enhance_identified env d b) as He.
    destruct (Advanced.enhanceBookData env d b) as [e d']. cbn [fst] in *.
    by apply map_set_values.
Qed.

(** X8. Every record the advanced script returns carries an identifier and
    a country: its [id] or its ASIN is a non-empty string, drawn from the
    random source when the candidate had neither, and its country is a
    non-empty string, [US] when the candidate had none. *)
Theorem advanced_records_identified
  (env : Advanced.environment) (now : string) (books : list book) :
  Forall identified (Advanced.processAndDeduplicateBooks env now books).
Proof.
  unfold Advanced.processAndDeduplicateBooks, Advanced.bookMap_of.
  assert (∀ st, Forall identified (map_values st.1) →
            Forall identified
              (map_values (fold_left (Advanced.dedup_step env now) books st).1)) as H.
  { induction books as [|b books IH]; intros st Hst; simpl; [done|].
    by apply IH, advanced_step_identified. }
  apply H. constructor.
Qed.

End CanonicalRecords.

Section StoredBooks.
Import Background Notions.

Lemma merge_step_other now m b k :
  storageKey b ≠ Some k → map_get k (merge_step now m b) = map_get k m.
Proof.
  intros Hne. unfold merge_step. destruct (storageKey b) as [key|]; [|done].
  assert (k ≠ key) by congruence.
  destruct (map_get key m); by rewrite map_get_set_ne.
Qed.

Lemma merge_step_stamps now m b k :
  storageKey b = Some k →
  ∃ c, map_get k (merge_step now m b) = Some c ∧ lastUpdated c = Some now.
Proof.
  intros Hk. unfold merge_step. rewrite Hk.
  destruct (map_get k m); rewrite map_get_set_eq; eauto.
Qed.

Lemma merge_step_keeps_stamp now m b k c :
  map_get k m = Some c → lastUpdated c = Some now →
  ∃ c', map_get k (merge_step now m b) = Some c' ∧ lastUpdated c' = Some now.
Proof.
  intros Hk Hc. destruct (decide (storageKey b = Some k)) as [Hb|Hb].
  - by apply merge_step_stamps.
  - rewrite merge_step_other by done. eauto.
Qed.

(** X9. The background merge touches the keys of the new batch and no
    other: a stored key that no new record has keeps exactly the record
    that loading the store gave it, with its old time stamp, and a key that
    some new record has ends up with a record stamped with the time of the
    merge. *)
Theorem background_merge_touches_named_keys
  (now : string) (existing newBooks : list book) (k : string) :
  ((∀ b, b ∈ newBooks → storageKey b ≠ Some k) →
   map_get k (fold_left (merge_step now) newBooks (fold_left load_step existing []))
   = map_get k (fold_left load_step existing []))
  ∧ ((∃ b, b ∈ newBooks ∧ storageKey b = Some k) →
     ∃ c, map_get k (fold_left (merge_step now) newBooks (fold_left load_step existing []))
          = Some c
          ∧ lastUpdated c = Some now
          ∧ c ∈ mergeBookData now existing newBooks).
Proof.
  unfold mergeBookData. generalize (fold_left load_step existing []). intros m. split.
  - revert m. induction newBooks as [|b bs IH]; intros m Hno; simpl; [done|].
    rewrite IH; [apply merge_step_other|]; intros; apply Hno; by constructor.
  - intros Hex.
    assert (∃ c, map_get k (fold_left (merge_step now) newBooks m) = Some c
                 ∧ lastUpdated c = Some now) as (c & Hc & Hs).
    { assert (∀ m, (∃ b, b ∈ newBooks ∧ storageKey b = Some k)
                   ∨ (∃ c, map_get k m = Some c ∧ lastUpdated c = Some now) →
                   ∃ c, map_get k (fold_left (merge_step now) newBooks m) = Some c
                        ∧ lastUpdated c = Some now) as Hgen; [|by apply Hgen; left].
      clear. induction newBooks as [|b bs IH]; intros m H; simpl.
      - destruct H as [(b & Hin & _)|H]; [by apply elem_of_nil in Hin|done].
      - apply IH. destruct H as [(b' & Hin & Hk)|(c & Hc & Hs)].
        + apply elem_of_cons in Hin as [->|Hin]; [|left; eauto].
          right. by apply merge_step_stamps.
        + right. by apply (merge_step_keeps_stamp _ _ _ _ c). }
    exists c. split; [done|]. split; [done|]. by apply (map_get_values _ k).
Qed.

End StoredBooks.

Section Sums.
Import Notions.

Local Ltac qring := unfold num in *; ring.

Lemma of_nat_S n : of_nat (S n) = (1 + of_nat n)%Qc.
Proof.
  unfold of_nat. by rewrite Nat2Z.inj_succ, <- Z.add_1_l, Z2Qc_inj_add, Z2Qc_inj_1.
Qed.

Lemma of_nat_0 : of_nat 0 = 0%Qc.
Proof. unfold of_nat. by rewrite <- Z2Qc_inj_0. Qed.

Lemma total_plus {A} (f g : A → num) xs :
  total (map (λ x, (f x + g x)%Qc) xs) = (total (map f xs) + total (map g xs))%Qc.
Proof.
  unfold total. induction xs as [|x xs IH]; cbn [map foldr]; [qring|]. rewrite IH. qring.
Qed.

Lemma total_minus {A} (f g : A → num) xs :
  total (map (λ x, (f x - g x)%Qc) xs) = (total (map f xs) - total (map g xs))%Qc.
Proof.
  unfold total. induction xs as [|x xs IH]; cbn [map foldr]; [qring|]. rewrite IH. qring.
Qed.

Lemma total_ext {A} (f g : A → num) xs :
  (∀ x, f x = g x) → total (map f xs) = total (map g xs).
Proof. intros H. f_equal. apply map_ext. auto. Qed.

Lemma total_filter {A} (s : A → num) (p : A → bool) xs :
  total (map s (List.filter p xs)) = total (map (λ x, if p x then s x else 0%Qc) xs).
Proof.
  unfold total. induction xs as [|x xs IH]; cbn [List.filter map foldr]; [done|].
  destruct (p x); cbn [map foldr]; rewrite IH; qring.
Qed.

(** A sum over the rows of the sums over their matches is a sum over the
    candidates, each counted once for every row it matches. *)
Lemma total_cons x xs : total (x :: xs) = (x + total xs)%Qc.
Proof. reflexivity. Qed.

Lemma total_exchange {A B} (s : B → num) (m : A → B → bool) (ys : list B) xs :
  total (map (λ x, total (map s (List.filter (m x) ys))) xs)
  = total (map (λ y, (s y * of_nat (List.length (List.filter (λ x, m x y) xs)))%Qc) ys).
Proof.
  induction xs as [|x xs IH]; cbn [map List.filter].
  - induction ys as [|y ys IHy]; cbn [map]; [done|].
    rewrite total_cons, <- IHy. cbn [List.length]. rewrite of_nat_0.
    change (total []) with 0%Qc. qring.
  - rewrite total_cons, IH, total_filter, <- total_plus. apply total_ext. intros y.
    destruct (m x y); cbn [List.length]; [rewrite of_nat_S|]; qring.
Qed.

End Sums.

Section SummaryTotals.
Import Notions Dashboard.

(** X10. The summary of the dashboard counts a campaign once for every
    sales row it matches. On whole amounts that add up to no more than
    2^53, where the additions of the source do not round, [totalSpend] is
    the sum, over the campaigns, of the spend times the number of matching
    rows, so a campaign that matches no row is not counted and one that
    matches two rows is counted twice; the net profits of the rows add up
    to [totalRevenue] minus [totalSpend], and [totalRevenue] is the sum of
    the royalties of the rows. *)
Theorem summary_counts_spend_per_row
  (kdpSyncs : list (sync sale)) (adsSyncs : list (sync campaign)) :
  exact_amounts (flatten kdpSyncs) (flatten adsSyncs) →
  totalSpend (summary_of (processUserData kdpSyncs adsSyncs))
  = total (map (λ ad, (orq (spend (item ad)) 0%Qc
                       * of_nat (List.length
                                   (List.filter (λ k, matches (item k) (item ad))
                                                (flatten kdpSyncs))))%Qc)
               (flatten adsSyncs))
  ∧ totalRevenue (summary_of (processUserData kdpSyncs adsSyncs))
    = total (map (λ k, orq (royalty (item k)) 0%Qc) (flatten kdpSyncs))
  ∧ total (map c_netProfit (combinedData (processUserData kdpSyncs adsSyncs)))
    = (totalRevenue (summary_of (processUserData kdpSyncs adsSyncs))
       - totalSpend (summary_of (processUserData kdpSyncs adsSyncs)))%Qc.
Proof.
  intros _.
  cbn [processUserData summary_of totalSpend totalRevenue combinedData].
  rewrite !sum_of_total, !map_map.
  split; [|split].
  - rewrite <- (total_exchange (λ ad, orq (spend (item ad)) 0%Qc)
                               (λ k ad, matches (item k) (item ad))).
    apply total_ext. intros k. cbn [combine c_adSpend]. by rewrite sum_of_total.
  - by apply total_ext.
  - rewrite <- total_minus. by apply total_ext.
Qed.

Lemma scenario_amounts_exact :
  exact_amounts (flatten [one_sync [scenario_sale; scenario_sale]])
                (flatten [one_sync [scenario_ad]]).
Proof.
  split; [|split].
  - intros k Hk. exists 10%Z.
    change (flatten [one_sync [scenario_sale; scenario_sale]])
      with [Stamped scenario_sale noon "sync-1"; Stamped scenario_sale noon "sync-1"] in Hk.
    apply elem_of_cons in Hk as [->|Hk%list_elem_of_singleton]; [|subst k];
      apply (bool_decide_unpack _); vm_compute; exact I.
  - intros ad Had. exists 3%Z.
    change (flatten [one_sync [scenario_ad]])
      with [Stamped scenario_ad noon "sync-1"] in Had.
    apply list_elem_of_singleton in Had as ->.
    apply (bool_decide_unpack _). vm_compute. exact I.
  - apply (bool_decide_unpack _). vm_compute. exact I.
Qed.

Lemma summary_counts_spend_per_row_witness :
  exact_amounts (flatten [one_sync [scenario_sale; scenario_sale]])
                (flatten [one_sync [scenario_ad]])
  ∧ totalSpend (summary_of (processUserData [one_sync [scenario_sale; scenario_sale]]
                                            [one_sync [scenario_ad]]))
    = of_Z 6.
Proof.
  split; [exact scenario_amounts_exact|].
  destruct (summary_counts_spend_per_row [one_sync [scenario_sale; scenario_sale]]
              [one_sync [scenario_ad]] scenario_amounts_exact) as [-> _].
  apply (bool_decide_unpack _). vm_compute. exact I.
Defined.

End SummaryTotals.

Section Rankings.
Import Notions Advanced.

Lemma sort_insert_perm b l : sort_insert b l ≡ₚ b :: l.
Proof.
  induction l as [|c tl IH]; cbn [sort_insert]; [done|].
  destruct (gtb _ _); [|done]. rewrite IH. apply Permutation_swap.
Qed.

Lemma sort_by_royalties_perm l : sort_by_royalties l ≡ₚ l.
Proof.
  unfold sort_by_royalties. induction l as [|b l IH]; cbn [foldr]; [done|].
  by rewrite sort_insert_perm, IH.
Qed.

Lemma sort_insert_falling b l : falling l → falling (sort_insert b l).
Proof.
  induction l as [|c tl IH]; cbn [sort_insert falling]; [by split|].
  intros [Hc Htl]. unfold gtb. case_bool_decide as Hgt; cbn [falling].
  - split; [|by apply IH]. rewrite sort_insert_perm. constructor; [|done].
    unfold reading. by apply Qclt_le_weak.
  - apply Qcnot_lt_le in Hgt. repeat split; [|done..].
    constructor; [done|]. eapply Forall_impl; [apply Hc|].
    intros x Hx. cbn beta in Hx. unfold reading in *. by apply Qcle_trans with (2 := Hgt).
Qed.

Lemma sort_by_royalties_falling l : falling (sort_by_royalties l).
Proof.
  unfold sort_by_royalties. induction l as [|b l IH]; cbn [foldr]; [done|].
  by apply sort_insert_falling.
Qed.

Lemma head_sort_insert b l :
  head (sort_insert b l)
  = match head l with
    | Some c =>
        if gtb (reading totalRoyalties c) (reading totalRoyalties b) then Some c else Some b
    | None => Some b
    end.
Proof.
  destruct l as [|c tl]; cbn [sort_insert head]; [done|].
  unfold reading. by destruct (gtb _ _).
Qed.

Lemma head_sort_first_best l :
  match head (sort_by_royalties l) with
  | Some t => first_best l t
  | None => l = []
  end.
Proof.
  unfold sort_by_royalties. induction l as [|b l IH]; cbn [foldr]; [done|].
  rewrite head_sort_insert. fold (sort_by_royalties l) in *.
  destruct (head (sort_by_royalties l)) as [c|].
  - destruct IH as (pre & post & -> & Hpre & Hpost).
    unfold gtb. case_bool_decide as Hgt.
    + exists (b :: pre), post. split; [done|]. split; [by constructor|done].
    + apply Qcnot_lt_le in Hgt. exists [], (pre ++ c :: post).
      split; [done|]. split; [constructor|].
      apply Forall_app. split; [|constructor; [done|]].
      * eapply Forall_impl; [apply Hpre|]. intros x Hx. cbn beta in Hx.
        apply Qcle_trans with (2 := Hgt). by apply Qclt_le_weak.
      * eapply Forall_impl; [apply Hpost|]. intros x Hx. cbn beta in Hx.
        by apply Qcle_trans with (2 := Hgt).
  - subst l. exists [], []. by repeat split.
Qed.

(** X11. The top book of the summary is the first book with the highest
    royalties, a missing or zero amount counting as 0: every book in front
    of it has strictly less and no book behind it has more. There is no
    top book exactly when there are no books. *)
Theorem summary_top_book_is_first_best (books : list book) :
  (topBook (generateSummary books) = None ↔ books = [])
  ∧ (∀ t, topBook (generateSummary books) = Some t → first_best books t).
Proof.
  cbn [generateSummary topBook]. pose proof (head_sort_first_best books) as H.
  destruct (head (sort_by_royalties books)) as [t|].
  - split; [|by intros ? [= <-]]. split; [done|]. intros ->.
    destruct H as ([|??] & ? & ? & _); done.
  - split; [done|]. by intros.
Qed.

(** X12. The summary reorders the books it is given: the books that
    [performKDPExtraction] stores and sends are the deduplicated records in
    the order of falling royalties, not in the order in which their keys
    were first seen. They are the same records, the first of them is the
    top book of the summary, and each still has the minimum signal. *)
Theorem extraction_sends_books_by_royalties
  (env : environment) (now : string) (candidates : list book) :
  books (performKDPExtraction env now candidates)
    ≡ₚ processAndDeduplicateBooks env now candidates
  ∧ falling (books (performKDPExtraction env now candidates))
  ∧ head (books (performKDPExtraction env now candidates))
    = topBook (summary (performKDPExtraction env now candidates))
  ∧ Forall (λ c, isValidBookData c = true) (books (performKDPExtraction env now candidates)).
Proof.
  cbn [performKDPExtraction books summary generateSummary topBook].
  split; [apply sort_by_royalties_perm|]. split; [apply sort_by_royalties_falling|].
  split; [done|]. rewrite sort_by_royalties_perm.
  unfold processAndDeduplicateBooks, bookMap_of.
  apply advanced_fold_valid. constructor.
Qed.

End Rankings.

Section TraversalRecords.
Import Content Notions.

(** X13. Whatever the traversal of a page object returns, from any object
    and with any records found before, it has kept those records in front
    and has appended exactly the records it is to find: one for every
    plain object, at any depth, that a property of a walked object holds
    and whose [title], [name] or [productName], the first truthy of them,
    is a string that the classifier accepts. The record is the object
    pushed for it: each metric is the first truthy value among the
    properties named for it, of whatever type, or else the number 0, and
    the source is the path of the property. *)
Theorem traversal_appends_what_it_finds
  (js : coercion) (stack : nat) (h : heap) (now : string) (o : value) (path : string)
  (books : list js_book) :
  appends_found h now o path books (traverse js stack h now o path books).
Proof. apply traverse_finds. Qed.

Lemma forEachIndexed_unchanged {A St} (f : nat → A → St → result St) xs s :
  (∀ i x, x ∈ xs → f i x s = Ok s) →
  ∀ i, forEachIndexed f i xs s = Ok s.
Proof.
  induction xs as [|x xs IH]; intros Hf i; cbn [forEachIndexed]; [done|].
  rewrite Hf by left. cbn [bind]. apply IH. intros j y Hy. apply Hf. by right.
Qed.

Lemma flat_record_unchanged js n h now item path books :
  flat_record h item = true →
  traverse js (S n) h now item path books = Ok books.
Proof.
  intros Hflat.
  change (traverse js (S n) h now item path books)
    with (traverse_body (traverse js n h now) js h now item path books).
  unfold traverse_body. destruct item as [| | | | |l]; try done.
  cbn [flat_record] in Hflat.
  destruct (h !! l) as [[props|items]|]; [|done..].
  apply andb_true_iff in Hflat as [Hsh Hprim]. apply negb_true_iff in Hsh.
  rewrite Hsh. apply forEachIndexed_unchanged. intros i [key v] Hin.
  rewrite forallb_forall in Hprim.
  specialize (Hprim (key, v) ltac:(by apply list_elem_of_In)).
  by destruct v.
Qed.

(** X14. A record that is an item of an array is not tested as a book: on
    a plain object whose properties are primitives and arrays of flat
    records, such as an object with a list of books, the traversal finds
    nothing, with any stack that takes two nested calls or more. Only
    objects that are values of properties of an object the traversal walks
    are tested. *)
Theorem records_in_arrays_are_not_extracted
  (js : coercion) (h : heap) (now : string) (root : value) (stack : nat) :
  tables_only h root = true → (2 ≤ stack)%nat →
  extractBooksFromObject js stack h now root = Ok [].
Proof.
  intros Htab Hstack. destruct stack as [|[|n]]; [lia..|].
  unfold extractBooksFromObject.
  change (traverse js (S (S n)) h now root "" [])
    with (traverse_body (traverse js (S n) h now) js h now root "" []).
  unfold traverse_body. destruct root as [| | | | |l]; try done.
  cbn [tables_only] in Htab.
  destruct (h !! l) as [[props|items]|]; [|done..].
  apply andb_true_iff in Htab as [Hsh Hprops]. apply negb_true_iff in Hsh.
  rewrite Hsh. apply forEachIndexed_unchanged. intros i [key v] Hin.
  rewrite forallb_forall in Hprops.
  specialize (Hprops (key, v) ltac:(by apply list_elem_of_In)).
  destruct v as [| | | | |l']; try done.
  cbn [record_table] in Hprops.
  destruct (h !! l') as [[ps|items]|]; [done| |done].
  apply forEachIndexed_unchanged. intros j item Hitem.
  rewrite forallb_forall in Hprops.
  specialize (Hprops item ltac:(by apply list_elem_of_In)).
  destruct item; try done. by apply flat_record_unchanged.
Qed.

Lemma records_in_arrays_are_not_extracted_witness :
  tables_only table_heap (VObject 0%nat) = true
  ∧ extractBooksFromObject (λ _ _, Ok false) 2 table_heap noon (VObject 0%nat) = Ok [].
Proof.
  split; [vm_compute; reflexivity|].
  apply (records_in_arrays_are_not_extracted (λ _ _, Ok false) table_heap noon
           (VObject 0%nat) 2);
    [vm_compute; reflexivity|lia].
Defined.

End TraversalRecords.

Section Widgets.
Import Content Notions.

Lemma widget_title_fold hs :
  ∀ t0,
    let r := fold_left (λ title heading,
                          if isLikelyBookTitle (trim heading)
                             && (String.length title <? String.length (trim heading))%nat
                          then trim heading else title) hs t0 in
    (r = t0 ∧ ∀ h, h ∈ hs → isLikelyBookTitle (trim h) = true →
                   (String.length (trim h) ≤ String.length t0)%nat)
    ∨ (widget_choice hs r ∧ (String.length t0 < String.length r)%nat).
Proof.
  induction hs as [|h hs IH]; intros t0; cbn [fold_left].
  - left. split; [done|]. intros h Hh. by apply elem_of_nil in Hh.
  - cbn zeta in IH.
    destruct (isLikelyBookTitle (trim h)) eqn:Hacc; cbn [andb];
      [destruct (Nat.ltb_spec (String.length t0) (String.length (trim h))) as [Hlt|Hge]|].
    + destruct (IH (trim h)) as [[-> Hall]|[(Hr & Hin & Hall) Hlen]].
      * right. split; [|done]. split; [done|]. split; [left|].
        intros h' [->|Hh']%elem_of_cons Hh; [lia|by apply Hall].
      * right. split; [|lia]. split; [done|]. split; [by right|].
        intros h' [->|Hh']%elem_of_cons Hh; [lia|by apply Hall].
    + destruct (IH t0) as [[-> Hall]|[(Hr & Hin & Hall) Hlen]].
      * left. split; [done|].
        intros h' [->|Hh']%elem_of_cons Hh; [lia|by apply Hall].
      * right. split; [|lia]. split; [done|]. split; [by right|].
        intros h' [->|Hh']%elem_of_cons Hh; [lia|by apply Hall].
    + destruct (IH t0) as [[-> Hall]|[(Hr & Hin & Hall) Hlen]].
      * left. split; [done|].
        intros h' [->|Hh']%elem_of_cons Hh; [congruence|by apply Hall].
      * right. split; [|lia]. split; [done|]. split; [by right|].
        intros h' [->|Hh']%elem_of_cons Hh; [congruence|by apply Hall].
Qed.

Lemma gtb_positive v : gtb v 0%Qc = true → positive (Some v).
Proof. unfold gtb. rewrite bool_decide_eq_true. intros H. by exists v. Qed.

(** X15. A record read from a widget has for title a trimmed heading that
    the classifier accepts and that no accepted heading exceeds in length;
    its read royalties are its read count times 0.004, it has positive
    royalties or a positive read count, and it has no sales and no ASIN. A
    widget none of whose headings is accepted gives no record, whatever
    its amounts. *)
Theorem widget_record_takes_longest_heading
  (add : addition) (text : string) (headings : list string) (source now : string) :
  (∀ b, extractBookDataFromWidget add text headings source now = Some b →
        (∃ t, title b = Some t ∧ widget_choice headings t)
        ∧ kenpRoyalties b = option_map (λ r, (r * kenp_rate)%Qc) (kenpReads b)
        ∧ (positive (totalRoyalties b) ∨ positive (kenpReads b))
        ∧ totalSales b = None ∧ asin b = None)
  ∧ ((∀ h, h ∈ headings → isLikelyBookTitle (trim h) = false) →
     extractBookDataFromWidget add text headings source now = None).
Proof.
  unfold extractBookDataFromWidget. cbn zeta.
  pose proof (widget_title_fold headings "") as Hfold. cbn zeta in Hfold.
  fold (widget_title headings) in Hfold. split.
  - intros b. destruct (truthy_str (widget_title headings)) eqn:Ht; cbn [andb]; [|done].
    destruct (gtb (extractMoneyAmount add text) 0%Qc || gtb _ 0%Qc) eqn:Hs; [|done].
    intros [= <-]. cbn [title kenpRoyalties kenpReads totalRoyalties totalSales asin
                        option_map].
    split; [|split; [done|split; [|done]]].
    + eexists. split; [done|]. destruct Hfold as [[He _]|[Hc _]]; [|done].
      rewrite He in Ht. done.
    + apply orb_true_iff in Hs as [H|H]; [left|right]; by apply gtb_positive.
  - intros Hnone. destruct Hfold as [[-> _]|[(Hacc & Hin & _) _]]; [done|].
    apply list_elem_of_fmap in Hin as (h & Heq & Hh). rewrite Heq in Hacc.
    rewrite Hnone in Hacc; done.
Qed.

Lemma element_records_all add text titles now :
  Forall (λ b, totalRoyalties b = Some (extractMoneyAmount add text)
               ∧ positive (totalRoyalties b)
               ∧ (∃ t, title b = Some t ∧ isLikelyBookTitle t = true)
               ∧ source b = Some "element_extraction")
         (extractBooksFromElement add text titles now).
Proof.
  unfold extractBooksFromElement. induction titles as [|h hs IH]; cbn [flat_map]; [done|].
  apply Forall_app. split; [|done]. cbn zeta.
  destruct (isLikelyBookTitle (trim h)) eqn:Hacc; cbn [andb]; [|done].
  destruct (gtb (extractMoneyAmount add text) 0%Qc) eqn:Hgt; [|done].
  constructor; [|done]. cbn [totalRoyalties title source].
  split; [done|]. split; [by apply gtb_positive|]. split; [eauto|done].
Qed.

(** X16. Every title element of an element gets the whole amount of the
    element: [extractBooksFromElement] returns one record for each title
    element whose trimmed text the classifier accepts, when the amount of
    the element is above zero, and none otherwise; each record has that
    amount, what [extractMoneyAmount] gives for the text of the whole
    element, for royalties. *)
Theorem element_records_repeat_the_amount
  (add : addition) (text : string) (titles : list string) (now : string) :
  Forall (λ b, totalRoyalties b = Some (extractMoneyAmount add text)
               ∧ positive (totalRoyalties b)
               ∧ (∃ t, title b = Some t ∧ isLikelyBookTitle t = true)
               ∧ source b = Some "element_extraction")
         (extractBooksFromElement add text titles now)
  ∧ List.length (extractBooksFromElement add text titles now)
    = if gtb (extractMoneyAmount add text) 0%Qc
      then List.length (List.filter isLikelyBookTitle (map trim titles))
      else 0%nat.
Proof.
  split; [apply element_records_all|].
  unfold extractBooksFromElement. induction titles as [|h hs IH]; cbn [flat_map map].
  - by destruct (gtb _ _).
  - rewrite length_app, IH. cbn [List.filter].
    destruct (isLikelyBookTitle (trim h)); destruct (gtb (extractMoneyAmount add text) 0%Qc);
      done.
Qed.

End Widgets.

Section Amounts.
Import Content Notions.

Lemma span_app_stop p l c r :
  p c = false → span p (l ++ c :: r) = ((span p l).1, (span p l).2 ++ c :: r).
Proof.
  intros Hc. induction l as [|x l IH]; cbn [app span].
  - by rewrite Hc.
  - destruct (p x); [|done]. rewrite IH. by destruct (span p l).
Qed.

Lemma span_parts p l : (span p l).1 ++ (span p l).2 = l.
Proof.
  induction l as [|x l IH]; cbn [span]; [done|].
  destruct (p x); [|done]. destruct (span p l). cbn [fst snd app] in *. by f_equal.
Qed.

Lemma span_length p l : (List.length (span p l).1 ≤ List.length l)%nat.
Proof.
  rewrite <- (span_parts p l) at 2. rewrite length_app. lia.
Qed.

Lemma money_char_false c :
  money_char c = false →
  is_digit c = false ∧ Ascii.eqb c "," = false ∧ Ascii.eqb c "." = false
  ∧ Ascii.eqb c "$" = false.
Proof.
  unfold money_char. intros [[[? ?]%orb_false_iff ?]%orb_false_iff ?]%orb_false_iff.
  done.
Qed.

Lemma money_at_app l c r :
  l ≠ [] → money_char c = false → money_at (l ++ c :: r) = money_at l.
Proof.
  intros Hl (Hd & Hcomma & Hpoint & _)%money_char_false.
  destruct l as [|c0 r0]; [done|]. cbn [app money_at].
  destruct (Ascii.eqb c0 "$"); [|done].
  rewrite span_app_stop by (by rewrite Hd, Hcomma).
  destruct (span _ r0) as [a r1]. cbn [fst snd].
  destruct a as [|d a]; [done|].
  destruct r1 as [|p r2]; cbn [app]; [by rewrite Hpoint|].
  destruct (Ascii.eqb p "."); [|done]. by rewrite span_app_stop.
Qed.

Lemma money_at_length l m : money_at l = Some m → (List.length m ≤ List.length l)%nat.
Proof.
  destruct l as [|c r]; cbn [money_at]; [done|].
  destruct (Ascii.eqb c "$"); [|done].
  pose proof (span_parts (λ d, is_digit d || Ascii.eqb d ",") r) as Hr.
  destruct (span _ r) as [a r1]. cbn [fst snd] in Hr.
  destruct a as [|d a]; [done|].
  apply (f_equal List.length) in Hr. rewrite length_app in Hr.
  destruct r1 as [|p r2].
  - intros [= <-]. cbn [List.length] in *. lia.
  - pose proof (span_length is_digit r2).
    destruct (Ascii.eqb p "."); intros [= <-];
      cbn [List.length] in *; rewrite ?length_app in *; cbn [List.length] in *; lia.
Qed.

Lemma money_scan_app c r :
  money_char c = false →
  ∀ l k, (k ≤ List.length l)%nat →
         money_scan (l ++ c :: r) k = money_scan l k ++ money_scan r 0.
Proof.
  intros Hc. induction l as [|x tl IH]; intros k Hk.
  - cbn [List.length] in Hk. replace k with 0%nat by lia. cbn [app money_scan money_at].
    by rewrite (proj2 (proj2 (proj2 (money_char_false c Hc)))).
  - pose proof (money_at_app (x :: tl) c r ltac:(done) Hc) as Hat.
    cbn [app] in Hat. cbn [app money_scan]. destruct k as [|k].
    + rewrite Hat. destruct (money_at (x :: tl)) as [m|] eqn:Hm.
      * apply money_at_length in Hm. cbn [List.length] in Hm.
        rewrite IH by lia. done.
      * apply IH. lia.
    + apply IH. cbn [List.length] in Hk. lia.
Qed.

Lemma chars_app a b : chars (a +:+ b) = chars a ++ chars b.
Proof.
  unfold chars. induction a as [|x a IH]; [done|].
  change (x :: list_ascii_of_string (a +:+ b) = x :: (list_ascii_of_string a ++ list_ascii_of_string b)).
  by f_equal.
Qed.

(** X17. The amounts found in a text are those found in its parts: when
    two texts are joined by a character that is no digit, comma, point or
    dollar sign, the matches of the money pattern in the whole are the
    matches in the first part followed by the matches in the second; no
    match is made, lost or changed by the joint. *)
Theorem money_matches_of_joined_texts (a b : string) (c : ascii) :
  money_char c = false →
  money_matches (a +:+ String c b) = money_matches a ++ money_matches b.
Proof.
  intros Hc. unfold money_matches. rewrite chars_app.
  change (chars (String c b)) with (c :: chars b).
  by rewrite money_scan_app by (done || lia).
Qed.

Lemma money_matches_of_joined_texts_witness :
  money_matches "Paid $1,200.50 and $2" = ["$1,200.50"; "$2"].
Proof.
  exact (eq_trans (money_matches_of_joined_texts "Paid $1,200.50" "and $2" " " eq_refl)
                  eq_refl).
Defined.

End Amounts.

Section Tables.
Import Content Notions.

Lemma row_result_cases cells source now :
  existsb kenp_block_reads cells = false →
  ∃ r, extractBookDataFromRow cells source now = Ok r
       ∧ ∀ b, r = Some b → kenpReads b = Some 0%Qc ∧ truthy_os (title b) = true.
Proof.
  intros He. unfold extractBookDataFromRow.
  destruct (row_loop_returns cells row_init He) as [v Hv]. rewrite Hv.
  apply row_loop_keeps_kenp in Hv as [Hr _]. cbn [bind].
  destruct (truthy_str (r_title v) && _) eqn:Hc; eexists; (split; [done|]); [|done].
  intros b [= <-]. cbn [kenpReads title truthy_os]. rewrite Hr.
  by apply andb_true_iff in Hc as [-> _].
Qed.

Lemma rows_cases rows :
  ∀ tableIndex rowIndex now books,
    (existsb row_throws rows = true
     ∧ extractFromRows tableIndex rowIndex rows now books = Throw ReferenceError)
    ∨ (existsb row_throws rows = false
       ∧ ∃ found,
           extractFromRows tableIndex rowIndex rows now books = Ok (books ++ found)
           ∧ Forall (λ b, kenpReads b = Some 0%Qc ∧ truthy_os (title b) = true) found
           ∧ (List.length found ≤ List.length rows)%nat).
Proof.
  induction rows as [|cells tl IH]; intros tableIndex rowIndex now books.
  - right. split; [done|]. exists []. by rewrite app_nil_r.
  - cbn [extractFromRows existsb List.length]. unfold row_throws at 1 3.
    destruct (2 <=? List.length cells)%nat; cbn [andb].
    + destruct (existsb kenp_block_reads cells) eqn:He; cbn [orb].
      * left. split; [done|].
        by rewrite (proj2 (extractBookDataFromRow_throws_iff cells _ now) He).
      * destruct (row_result_cases cells
                    ("table_" +:+ pretty tableIndex +:+ "_row_" +:+ pretty rowIndex)
                    now He) as (r & -> & Hr). cbn [bind].
        destruct r as [b|]; [destruct (truthy_os (title b)) eqn:Ht|]; cbn [bind].
        -- destruct (IH tableIndex (S rowIndex) now (books ++ [b]))
             as [[Hex ->]|(Hex & found & -> & Hall & Hlen)]; [by left|right].
           split; [done|]. exists (b :: found). rewrite <- app_assoc.
           split; [done|]. split; [|cbn [List.length]; lia].
           constructor; [by apply Hr|done].
        -- destruct (IH tableIndex (S rowIndex) now books)
             as [[Hex ->]|(Hex & found & -> & Hall & Hlen)]; [by left|right].
           split; [done|]. exists found. split; [done|]. split; [done|lia].
        -- destruct (IH tableIndex (S rowIndex) now books)
             as [[Hex ->]|(Hex & found & -> & Hall & Hlen)]; [by left|right].
           split; [done|]. exists found. split; [done|]. split; [done|lia].
    + cbn [orb bind].
      destruct (IH tableIndex (S rowIndex) now books)
        as [[Hex ->]|(Hex & found & -> & Hall & Hlen)]; [by left|right].
      split; [done|]. exists found. split; [done|]. split; [done|lia].
Qed.

(** X18. One cell loses the table: the scan of the rows of a table throws
    the [ReferenceError] as soon as a row of two cells or more has a cell
    that reaches the read of the KENP block, whatever records the rows
    before it gave. When no row does, the scan keeps the records it
    started with and appends at most one titled record per row, each with
    a read count of 0: tables never yield a read count. *)
Theorem table_scan_throws_or_has_no_reads
  (tableIndex rowIndex : nat) (rows : list (list string)) (now : string)
  (books : list book) :
  (existsb row_throws rows = true →
   extractFromRows tableIndex rowIndex rows now books = Throw ReferenceError)
  ∧ (existsb row_throws rows = false →
     ∃ found,
       extractFromRows tableIndex rowIndex rows now books = Ok (books ++ found)
       ∧ Forall (λ b, kenpReads b = Some 0%Qc ∧ truthy_os (title b) = true) found
       ∧ (List.length found ≤ List.length rows)%nat).
Proof.
  destruct (rows_cases rows tableIndex rowIndex now books) as [[He Hr]|[He Hr]];
    rewrite He; split; done.
Qed.

End Tables.

Section StoredRecords.
Import Background Notions.

Lemma load_step_get k m b :
  map_get k (load_step m b)
  = if bool_decide (storageKey b = Some k) then Some b else map_get k m.
Proof.
  unfold load_step. destruct (storageKey b) as [key|].
  - rewrite map_get_set. case_bool_decide as H1; destruct (decide (key = k)) as [H2|H2];
      congruence.
  - by rewrite bool_decide_eq_false_2.
Qed.

Lemma load_fold_get k bs :
  ∀ m, map_get k (fold_left load_step bs m)
       = match last (List.filter (λ b, bool_decide (storageKey b = Some k)) bs) with
         | Some b => Some b
         | None => map_get k m
         end.
Proof.
  induction bs as [|b bs IH]; intros m; cbn [fold_left List.filter]; [done|].
  rewrite IH, load_step_get. case_bool_decide; [|done].
  rewrite last_cons. by destruct (last _).
Qed.

Lemma entry_get {V} (m : jsmap V) k v :
  NoDup (keys m) → (k, v) ∈ m → map_get k m = Some v.
Proof.
  induction m as [|[k' v'] m IH]; intros Hnd Hin; [by apply elem_of_nil in Hin|].
  cbn [keys map fst] in Hnd. apply NoDup_cons in Hnd as [Hk' Hnd].
  cbn [map_get]. apply elem_of_cons in Hin as [[= -> ->]|Hin].
  - by rewrite String.eqb_refl.
  - destruct (String.eqb_spec k k') as [->|_]; [|by apply IH].
    exfalso. apply Hk'. apply list_elem_of_fmap. by exists (k', v).
Qed.

Lemma load_fold_NoDup bs : ∀ m, NoDup (keys m) → NoDup (keys (fold_left load_step bs m)).
Proof.
  induction bs as [|b bs IH]; intros m Hm; cbn [fold_left]; [done|].
  apply IH. unfold load_step. destruct (storageKey b); [by apply keys_set_NoDup|done].
Qed.

(** X19. Loading the stored list does not merge: a record without
    storage key is dropped, and of the stored records that share a key the
    last one is kept as it is, the earlier ones leaving nothing behind.
    With no new records, every record the merge returns is the last
    stored record of its own key. *)
Theorem background_load_keeps_last (now : string) (existing : list book) :
  (∀ k, map_get k (fold_left load_step existing [])
        = last (List.filter (λ b, bool_decide (storageKey b = Some k)) existing))
  ∧ (∀ c, c ∈ mergeBookData now existing [] →
          ∃ k, storageKey c = Some k
               ∧ last (List.filter (λ b, bool_decide (storageKey b = Some k)) existing)
                 = Some c).
Proof.
  assert (∀ k, map_get k (fold_left load_step existing [])
               = last (List.filter (λ b, bool_decide (storageKey b = Some k)) existing))
    as Hget.
  { intros k. rewrite load_fold_get. by destruct (last _). }
  split; [done|]. intros c Hc. unfold mergeBookData, map_values in Hc.
  cbn [fold_left] in Hc. apply list_elem_of_fmap in Hc as ([k c'] & -> & Hin).
  cbn [snd]. exists k.
  apply entry_get in Hin; [|apply load_fold_NoDup, NoDup_nil_2].
  rewrite Hget in Hin. split; [|done].
  apply last_Some in Hin as [l' Hl'].
  assert (In c' (List.filter (λ b, bool_decide (storageKey b = Some k)) existing)) as Hf.
  { rewrite Hl'. apply in_or_app. right. by left. }
  apply filter_In in Hf as [_ Hf]. by apply bool_decide_eq_true in Hf.
Qed.

End StoredRecords.

Section Columns.
Import Advanced Notions.

Lemma header_step_columns map h type i :
  i ∈ columns type (header_step map h)
  ↔ i ∈ columns type map ∨ (h_index h = i ∧ header_class (h_text h) = Some type).
Proof.
  unfold header_step, header_class. cbv zeta.
  repeat (match goal with
          | |- context [if ?c then _ else _] => destruct c
          end);
    destruct type; cbn [columns hm_title hm_asin hm_revenue hm_sales hm_kenp hm_country];
    rewrite ?elem_of_app, ?list_elem_of_singleton;
    intuition (congruence || discriminate).
Qed.

Lemma header_fold_columns hs type i :
  ∀ map, i ∈ columns type (fold_left header_step hs map)
         ↔ i ∈ columns type map
           ∨ ∃ h, h ∈ hs ∧ h_index h = i ∧ header_class (h_text h) = Some type.
Proof.
  induction hs as [|h hs IH]; intros map; cbn [fold_left].
  - split; [by left|]. intros [?|(h & Hh & _)]; [done|]. by apply elem_of_nil in Hh.
  - rewrite IH, header_step_columns. split.
    + intros [[?|[? ?]]|(h' & ? & ? & ?)]; [by left|right..].
      * exists h. split; [left|done].
      * exists h'. split; [by right|done].
    + intros [?|(h' & [->|?]%elem_of_cons & ? & ?)]; [by left; left|by left; right|].
      right. by exists h'.
Qed.

Lemma header_columns headers type i :
  i ∈ columns type (createHeaderMap headers)
  ↔ ∃ h, h ∈ headers ∧ h_index h = i ∧ header_class (h_text h) = Some type.
Proof.
  unfold createHeaderMap. rewrite header_fold_columns. split; [|by right].
  intros [Hin|?]; [|done]. destruct type; by apply elem_of_nil in Hin.
Qed.

Lemma index_determines_header headers h h' :
  NoDup (map h_index headers) → h ∈ headers → h' ∈ headers →
  h_index h' = h_index h → h' = h.
Proof.
  induction headers as [|x xs IH]; intros Hnd Hh Hh' Heq; [by apply elem_of_nil in Hh|].
  cbn [map] in Hnd. apply NoDup_cons in Hnd as [Hx Hnd].
  apply elem_of_cons in Hh as [->|Hh]; apply elem_of_cons in Hh' as [->|Hh']; [done| | |auto].
  - exfalso. apply Hx. rewrite <- Heq. by apply list_elem_of_fmap_2.
  - exfalso. apply Hx. rewrite Heq. by apply list_elem_of_fmap_2.
Qed.

Lemma mapped_type_columns i map :
  mapped_type i map
  = if bool_decide (i ∈ columns TTitle map) then Some TTitle
    else if bool_decide (i ∈ columns TAsin map) then Some TAsin
    else if bool_decide (i ∈ columns TRevenue map) then Some TRevenue
    else if bool_decide (i ∈ columns TSales map) then Some TSales
    else if bool_decide (i ∈ columns TKenp map) then Some TKenp
    else if bool_decide (i ∈ columns TCountry map) then Some TCountry
    else None.
Proof.
  unfold mapped_type, header_entries. cbn [find columns].
  repeat (case_bool_decide; [done|]). done.
Qed.

Lemma id_is_asin_or_title text :
  includes (toLowerCase text) "id" = true →
  header_class text = Some TTitle ∨ header_class text = Some TAsin.
Proof.
  intros Hid. unfold header_class. cbv zeta.
  destruct (includes (toLowerCase text) "title" || _ || _); [by left|].
  rewrite Hid, orb_true_r. by right.
Qed.

(** X20. The columns of a table go by the first group of keywords found
    in the header: with headers at different positions, the type that
    [identifyCellType] reads from the header map for the position of a
    header is that of the first group, in the order title, ASIN, revenue,
    sales, reads, country, with a keyword in the lower-cased text, and a
    position without header has none. So a header with [id] anywhere in
    it, such as one about royalties paid, gives a title or ASIN column,
    never one of revenue, sales or reads. *)
Theorem header_columns_follow_first_keyword (headers : list header) :
  NoDup (map h_index headers) →
  (∀ h, h ∈ headers →
        mapped_type (h_index h) (createHeaderMap headers) = header_class (h_text h))
  ∧ (∀ i, i ∉ map h_index headers → mapped_type i (createHeaderMap headers) = None)
  ∧ (∀ h, h ∈ headers → includes (toLowerCase (h_text h)) "id" = true →
          mapped_type (h_index h) (createHeaderMap headers) = Some TTitle
          ∨ mapped_type (h_index h) (createHeaderMap headers) = Some TAsin).
Proof.
  intros Hnd.
  assert (∀ h, h ∈ headers →
            mapped_type (h_index h) (createHeaderMap headers) = header_class (h_text h))
    as Hmapped.
  { intros h Hh.
    assert (∀ type, h_index h ∈ columns type (createHeaderMap headers)
                    ↔ header_class (h_text h) = Some type) as Hcol.
    { intros type. rewrite header_columns. split.
      - intros (h' & Hh' & Hi & Hc).
        by rewrite <- (index_determines_header headers h h' Hnd Hh Hh' Hi).
      - intros Hc. by exists h. }
    rewrite mapped_type_columns.
    repeat (case_bool_decide;
            [by match goal with H : _ ∈ _ |- _ => apply Hcol in H end|]).
    destruct (header_class (h_text h)) as [type|] eqn:E; [|done].
    pose proof (proj2 (Hcol type) eq_refl) as Hin.
    destruct type; try contradiction. by apply elem_of_nil in Hin. }
  split; [done|]. split.
  - intros i Hi. rewrite mapped_type_columns.
    repeat (case_bool_decide;
            [match goal with
             | H : _ ∈ _ |- _ => apply header_columns in H as (h & Hh & <- & _)
             end;
             exfalso; apply Hi; by apply list_elem_of_fmap_2|]).
    done.
  - intros h Hh Hid. rewrite (Hmapped h Hh). by apply id_is_asin_or_title.
Qed.

Lemma header_columns_follow_first_keyword_witness :
  NoDup (map h_index report_headers)
  ∧ mapped_type 1 (createHeaderMap report_headers) = Some TAsin.
Proof.
  assert (NoDup (map h_index report_headers)) as Hnd.
  { apply (bool_decide_unpack _). vm_compute. exact I. }
  split; [exact Hnd|].
  destruct (header_columns_follow_first_keyword report_headers Hnd) as [H _].
  apply (H (Header "royalties paid" 1)). right. left.
Defined.

End Columns.

Section Enhancement.
Import Advanced Notions.

Lemma kenp_rate_non_zero : kenp_rate ≠ 0%Qc.
Proof. apply (bool_decide_unpack _). vm_compute. exact I. Qed.

Lemma derived_royalties_non_zero reads :
  gt0 reads = true →
  is_number_zero (option_map (λ r, (r * kenp_rate)%Qc) reads) = false.
Proof.
  intros (r & -> & Hr)%gt0_positive. cbn [option_map is_number_zero]. unfold is_zero.
  apply bool_decide_eq_false_2. intros [->|H]%Qcmult_integral.
  - by apply Qclt_not_eq in Hr.
  - by apply kenp_rate_non_zero.
Qed.

(** X21. [enhanceBookData] is idempotent, and enhancing an enhanced record
    draws nothing from the random source: the read royalties it derives
    are not zero, the country it sets is not empty, and the identifier it
    generates is not empty, so a second call finds nothing to fill in. *)
Theorem enhance_is_idempotent (env : environment) (drawn drawn' : nat) (b : book) :
  enhanceBookData env drawn' (enhanceBookData env drawn b).1
  = ((enhanceBookData env drawn b).1, drawn').
Proof.
  pose proof (fallbackId_non_empty env drawn) as Hid.
  unfold enhanceBookData at 2 3.
  destruct (negb (truthy_os (id b)) && negb (truthy_os (asin b))) eqn:Hneed;
    [destruct (fallbackId env drawn) as [i d]; cbn [fst] in Hid|];
    cbn [fst]; unfold enhanceBookData;
    cbn [kenpReads kenpRoyalties country id asin title totalRoyalties totalSales
         marketplace source extractedAt lastUpdated truthy_os].
  - rewrite Hid. cbn [negb andb].
    destruct (gt0 (kenpReads b)) eqn:Hr; cbn [andb].
    + destruct (is_number_zero (kenpRoyalties b)) eqn:Hz.
      * rewrite derived_royalties_non_zero by done.
        by destruct (truthy_os (country b)) eqn:Hc; cbn [negb truthy_os]; rewrite ?Hc.
      * rewrite Hz.
        by destruct (truthy_os (country b)) eqn:Hc; cbn [negb truthy_os]; rewrite ?Hc.
    + by destruct (truthy_os (country b)) eqn:Hc; cbn [negb truthy_os]; rewrite ?Hc.
  - rewrite Hneed.
    destruct (gt0 (kenpReads b)) eqn:Hr; cbn [andb].
    + destruct (is_number_zero (kenpRoyalties b)) eqn:Hz.
      * rewrite derived_royalties_non_zero by done.
        by destruct (truthy_os (country b)) eqn:Hc; cbn [negb truthy_os]; rewrite ?Hc.
      * rewrite Hz.
        by destruct (truthy_os (country b)) eqn:Hc; cbn [negb truthy_os]; rewrite ?Hc.
    + by destruct (truthy_os (country b)) eqn:Hc; cbn [negb truthy_os]; rewrite ?Hc.
Qed.

End Enhancement.
